(** * Vault projection calculator and transaction notifications (oasis-app)

    A shallow embedding of
    - [applyManageVaultCalculations] and its helpers (manage-vault
      calculations), over a model of the [bignumber.js] values the code
      computes with, and
    - [isTxDone], [compareTransactions] and [filterTransactions] of the
      transaction manager.

    The embedded functions keep the names and the shape of the TypeScript
    source; every theorem below is about these definitions. *)

From Stdlib Require Import ZArith NArith Bool List String DecimalString Lia.
From Stdlib Require Import Sorted Permutation.
Import ListNotations.

Local Open Scope Z_scope.

(** ** The [bignumber.js] values

    A [BigNumber] of the library is a record [{s, c, e}]: sign, coefficient
    and exponent.  [s] is [1] or [-1], and [null] for [NaN]; [c] is [null]
    for [NaN] and [±Infinity].  Zero carries a sign as well ([0] and [-0]).
    The model keeps exactly these cases.  A finite value [Finite s c e]
    stands for [s * c * 10^e]; the library's results are normalised (no
    trailing zero digits in [c], and zero is [c = 0, e = 0]).

    The library also keeps the exponent of a result within its [RANGE]
    (1e7 either way by default): above it the result is [±Infinity], below
    it a signed zero.  The exponent is left unbounded here: the lemmas on
    [isFinite] and on sums at a common scale are facts of this model, and
    the theorems on the vault calculations are stated so that they hold
    with the library's saturation as well. *)
Module BigNumber.

Inductive Sign : Type := Pos | Neg.

Inductive t : Type :=
| NaN
| Infinity (s : Sign)
| Finite (s : Sign) (c : N) (e : Z).

Definition Sign_eqb (a b : Sign) : bool :=
  match a, b with
  | Pos, Pos | Neg, Neg => true
  | _, _ => false
  end.

(** Sign of a product or quotient: [x.s * y.s]. *)
Definition sign_mul (a b : Sign) : Sign := if Sign_eqb a b then Pos else Neg.

Definition sign_opp (a : Sign) : Sign :=
  match a with Pos => Neg | Neg => Pos end.

(** [10^k] for [k >= 0], and [1] below. *)
Definition pow10 (k : Z) : N := Z.to_N (10 ^ Z.max 0 k).

(** Removal of the trailing zero digits of a non-zero coefficient. *)
Fixpoint strip (fuel : nat) (c : N) (e : Z) : N * Z :=
  match fuel with
  | O => (c, e)
  | S fuel' =>
      if (c mod 10 =? 0)%N then strip fuel' (c / 10)%N (e + 1) else (c, e)
  end.

Definition normalise (s : Sign) (c : N) (e : Z) : t :=
  if (c =? 0)%N then Finite s 0 0
  else let (c', e') := strip (N.to_nat (N.size c)) c e in Finite s c' e'.

(** Literals: [ofZ 15] is [15], [dec 15 (-1)] is [1.5]. *)
Definition dec (z : Z) (e : Z) : t :=
  normalise (if z <? 0 then Neg else Pos) (Z.abs_N z) e.

Definition ofZ (z : Z) : t := dec z 0.

(** The library's settings, at their defaults: [div] rounds to
    [DECIMAL_PLACES] decimal places with [ROUND_HALF_UP] (to nearest, ties
    away from zero). *)
Definition DECIMAL_PLACES : Z := 20.

(** *** Predicates *)

(** [isPositive]: [return this.s > 0].  It reads the sign only, so it is
    [true] for [0] and for [Infinity], and [false] for [-0] and [NaN]. *)
Definition isPositive (x : t) : bool :=
  match x with
  | NaN => false
  | Infinity s | Finite s _ _ => Sign_eqb s Pos
  end.


Definition isZero (x : t) : bool :=
  match x with
  | Finite _ c _ => (c =? 0)%N
  | _ => false
  end.

Definition isNaN (x : t) : bool :=
  match x with NaN => true | _ => false end.

Definition isFinite (x : t) : bool :=
  match x with Finite _ _ _ => true | _ => false end.

(** *** Comparison

    [compare x y] of the library answers [null] when either side is [NaN],
    and otherwise [-1], [0] or [1]; [0] and [-0] compare equal. *)
Definition signed (s : Sign) (c : comparison) : comparison :=
  match s with Pos => c | Neg => CompOpp c end.

Definition cmp_mag (c1 : N) (e1 : Z) (c2 : N) (e2 : Z) : comparison :=
  let m := Z.min e1 e2 in
  (c1 * pow10 (e1 - m) ?= c2 * pow10 (e2 - m))%N.

Definition compare (x y : t) : option comparison :=
  match x, y with
  | NaN, _ | _, NaN => None
  | Infinity s1, Infinity s2 =>
      if Sign_eqb s1 s2 then Some Eq else Some (signed s1 Gt)
  | Infinity s1, Finite _ _ _ => Some (signed s1 Gt)
  | Finite _ _ _, Infinity s2 => Some (signed s2 Lt)
  | Finite s1 c1 e1, Finite s2 c2 e2 =>
      if (c1 =? 0)%N then
        if (c2 =? 0)%N then Some Eq else Some (signed s2 Lt)
      else if (c2 =? 0)%N then Some (signed s1 Gt)
      else if Sign_eqb s1 s2 then Some (signed s1 (cmp_mag c1 e1 c2 e2))
      else Some (signed s1 Gt)
  end.

Definition gt (x y : t) : bool :=
  match compare x y with Some Gt => true | _ => false end.

Definition gte (x y : t) : bool :=
  match compare x y with Some Gt | Some Eq => true | _ => false end.

Definition lt (x y : t) : bool :=
  match compare x y with Some Lt => true | _ => false end.

Definition lte (x y : t) : bool :=
  match compare x y with Some Lt | Some Eq => true | _ => false end.


(** *** Arithmetic

    [plus], [minus] and [times] are exact; none of the operations raises:
    undefined cases give [NaN], and a division by zero gives [±Infinity]
    (or [NaN] for [0 / 0]). *)
Definition toZ (s : Sign) (n : N) : Z :=
  match s with Pos => Z.of_N n | Neg => - Z.of_N n end.

Definition negated (x : t) : t :=
  match x with
  | NaN => NaN
  | Infinity s => Infinity (sign_opp s)
  | Finite s c e => Finite (sign_opp s) c e
  end.

Definition plus (x y : t) : t :=
  match x, y with
  | NaN, _ | _, NaN => NaN
  | Infinity s1, Infinity s2 => if Sign_eqb s1 s2 then Infinity s1 else NaN
  | Infinity s, Finite _ _ _ | Finite _ _ _, Infinity s => Infinity s
  | Finite s1 c1 e1, Finite s2 c2 e2 =>
      let m := Z.min e1 e2 in
      let z := toZ s1 (c1 * pow10 (e1 - m)) + toZ s2 (c2 * pow10 (e2 - m)) in
      if z =? 0 then
        (* n - n = +0, and -0 only as the sum of two negative zeros *)
        Finite (match s1, s2 with Neg, Neg => Neg | _, _ => Pos end) 0 0
      else normalise (if z <? 0 then Neg else Pos) (Z.abs_N z) m
  end.

(** [minus] flips the sign of [y] and adds, as the library does. *)
Definition minus (x y : t) : t := plus x (negated y).

Definition times (x y : t) : t :=
  match x, y with
  | NaN, _ | _, NaN => NaN
  | Infinity s1, Infinity s2 => Infinity (sign_mul s1 s2)
  | Infinity s1, Finite s2 c _ | Finite s1 c _, Infinity s2 =>
      if (c =? 0)%N then NaN else Infinity (sign_mul s1 s2)
  | Finite s1 c1 e1, Finite s2 c2 e2 =>
      normalise (sign_mul s1 s2) (c1 * c2) (e1 + e2)
  end.

Definition div (x y : t) : t :=
  match x, y with
  | NaN, _ | _, NaN => NaN
  | Infinity _, Infinity _ => NaN
  | Infinity s1, Finite s2 _ _ => Infinity (sign_mul s1 s2)
  | Finite s1 _ _, Infinity s2 => Finite (sign_mul s1 s2) 0 0
  | Finite s1 c1 e1, Finite s2 c2 e2 =>
      if (c2 =? 0)%N then
        if (c1 =? 0)%N then NaN else Infinity (sign_mul s1 s2)
      else if (c1 =? 0)%N then Finite (sign_mul s1 s2) 0 0
      else
        let k := e1 - e2 + DECIMAL_PLACES in
        let n := (c1 * pow10 k)%N in
        let d := (c2 * pow10 (- k))%N in
        normalise (sign_mul s1 s2) ((2 * n + d) / (2 * d))%N (- DECIMAL_PLACES)
  end.

(** [BigNumber.minimum(a, b)]: [NaN] if either is [NaN], else the lesser;
    the first argument is kept unless it is greater than the second. *)
Definition minimum (a b : t) : t :=
  match b with
  | NaN => NaN
  | _ => if gt a b then b else a
  end.

End BigNumber.

(** ** Manage-vault calculations *)
Module ManageVault.

Import BigNumber.

(** [zero] of [helpers/zero]: [new BigNumber('0')]. *)
Definition zero : BigNumber.t := Finite Pos 0 0.

(** [PAYBACK_ALL_BOUND = new BigNumber('0.01')]. *)
Definition PAYBACK_ALL_BOUND : BigNumber.t := Finite Pos 1 (-2).

Record BalanceInfo : Type := {
  collateralBalance : BigNumber.t;
  daiBalance : BigNumber.t
}.

Record IlkData : Type := {
  liquidationRatio : BigNumber.t;
  ilkDebtAvailable : BigNumber.t
}.

Record PriceInfo : Type := {
  currentCollateralPrice : BigNumber.t;
  nextCollateralPrice : BigNumber.t
}.

Record Vault : Type := {
  lockedCollateral : BigNumber.t;
  debt : BigNumber.t;
  debtOffset : BigNumber.t
}.

Record ManageVaultCalculations : Type := {
  maxDepositAmount : BigNumber.t;
  maxDepositAmountUSD : BigNumber.t;
  maxWithdrawAmountAtCurrentPrice : BigNumber.t;
  maxWithdrawAmountAtNextPrice : BigNumber.t;
  maxWithdrawAmount : BigNumber.t;
  maxWithdrawAmountUSD : BigNumber.t;
  maxGenerateAmount : BigNumber.t;
  maxGenerateAmountAtCurrentPrice : BigNumber.t;
  maxGenerateAmountAtNextPrice : BigNumber.t;
  maxPaybackAmount : BigNumber.t;
  daiYieldFromTotalCollateral : BigNumber.t;
  daiYieldFromTotalCollateralAtNextPrice : BigNumber.t;
  afterDebt : BigNumber.t;
  afterLiquidationPrice : BigNumber.t;
  afterCollateralizationRatio : BigNumber.t;
  afterCollateralizationRatioAtNextPrice : BigNumber.t;
  afterFreeCollateral : BigNumber.t;
  afterFreeCollateralAtNextPrice : BigNumber.t;
  afterBackingCollateral : BigNumber.t;
  afterBackingCollateralAtNextPrice : BigNumber.t;
  afterLockedCollateral : BigNumber.t;
  shouldPaybackAll : bool
}.

Definition defaultManageVaultCalculations : ManageVaultCalculations := {|
  maxDepositAmount := zero;
  maxDepositAmountUSD := zero;
  maxWithdrawAmountAtCurrentPrice := zero;
  maxWithdrawAmountAtNextPrice := zero;
  maxWithdrawAmount := zero;
  maxWithdrawAmountUSD := zero;
  maxGenerateAmount := zero;
  maxGenerateAmountAtCurrentPrice := zero;
  maxGenerateAmountAtNextPrice := zero;
  maxPaybackAmount := zero;
  daiYieldFromTotalCollateral := zero;
  daiYieldFromTotalCollateralAtNextPrice := zero;
  afterDebt := zero;
  afterLiquidationPrice := zero;
  afterCollateralizationRatio := zero;
  afterCollateralizationRatioAtNextPrice := zero;
  afterFreeCollateral := zero;
  afterFreeCollateralAtNextPrice := zero;
  afterBackingCollateral := zero;
  afterBackingCollateralAtNextPrice := zero;
  afterLockedCollateral := zero;
  shouldPaybackAll := false
|}.

(** The part of [ManageVaultState] the calculations read and write.  An
    amount the user has not entered is [undefined] ([None]); an entered
    amount is a [BigNumber] object, which is truthy whatever its value. *)
Record ManageVaultState : Type := {
  depositAmount : option BigNumber.t;
  generateAmount : option BigNumber.t;
  withdrawAmount : option BigNumber.t;
  paybackAmount : option BigNumber.t;
  balanceInfo : BalanceInfo;
  ilkData : IlkData;
  priceInfo : PriceInfo;
  vault : Vault;
  calculations : ManageVaultCalculations
}.

(** [x || zero]. *)
Definition orZero (x : option BigNumber.t) : BigNumber.t :=
  match x with Some v => v | None => zero end.

Definition determineShouldPaybackAll
    (paybackAmount : option BigNumber.t) (debt debtOffset daiBalance : BigNumber.t)
    : bool :=
  isPositive debt &&
  gte daiBalance (plus debt debtOffset) &&
  match paybackAmount with
  | Some p => gte (plus p PAYBACK_ALL_BOUND) debt && negb (gt p debt)
  | None => false
  end.

Definition calculateAfterLockedCollateral
    (lockedCollateral : BigNumber.t) (depositAmount withdrawAmount : option BigNumber.t)
    : BigNumber.t :=
  let amount :=
    match depositAmount with
    | Some d => plus lockedCollateral d
    | None =>
        match withdrawAmount with
        | Some w => minus lockedCollateral w
        | None => lockedCollateral
        end
    end in
  if gte amount zero then amount else zero.

Definition calculateAfterDebt
    (shouldPaybackAll : bool) (generateAmount paybackAmount : option BigNumber.t)
    (debt : BigNumber.t) : BigNumber.t :=
  if shouldPaybackAll then zero
  else
    let amount :=
      match generateAmount with
      | Some g => plus debt g
      | None =>
          match paybackAmount with
          | Some p => minus debt p
          | None => debt
          end
      end in
    if gte amount zero then amount else zero.

Definition calculateAfterBackingCollateral
    (afterDebt liquidationRatio price : BigNumber.t) : BigNumber.t :=
  if negb (isPositive afterDebt) then zero
  else div (times afterDebt liquidationRatio) price.

Definition calculateAfterFreeCollateral
    (lockedCollateral backingCollateral : BigNumber.t) : BigNumber.t :=
  let amount := minus lockedCollateral backingCollateral in
  if gte amount zero then amount else zero.

(** [generateAmount] is not passed to [calculateAfterDebt] here. *)
Definition calculateMaxWithdrawAmount
    (paybackAmount : option BigNumber.t) (shouldPaybackAll : bool)
    (lockedCollateral debt debtOffset liquidationRatio price : BigNumber.t)
    : BigNumber.t :=
  let afterDebt := calculateAfterDebt shouldPaybackAll None paybackAmount debt in
  let afterDebtWithOffset :=
    if isPositive afterDebt then plus afterDebt debtOffset else afterDebt in
  let backingCollateral :=
    calculateAfterBackingCollateral afterDebtWithOffset liquidationRatio price in
  calculateAfterFreeCollateral lockedCollateral backingCollateral.

Definition calculateDaiYieldFromCollateral
    (debt liquidationRatio : BigNumber.t)
    (generateAmount paybackAmount : option BigNumber.t)
    (price collateral ilkDebtAvailable : BigNumber.t) : BigNumber.t :=
  let daiYield := minus (div (times collateral price) liquidationRatio) debt in
  if negb (isPositive daiYield) then zero
  else if gt daiYield ilkDebtAvailable then
    if isPositive ilkDebtAvailable then
      let amount :=
        minus (plus ilkDebtAvailable (orZero paybackAmount)) (orZero generateAmount) in
      if gte amount zero then amount else zero
    else zero
  else daiYield.

(** Neither [withdrawAmount] nor [paybackAmount] is passed on here. *)
Definition calculateMaxGenerateAmount
    (depositAmount generateAmount : option BigNumber.t)
    (debt debtOffset lockedCollateral liquidationRatio price ilkDebtAvailable
      : BigNumber.t) : BigNumber.t :=
  let afterLockedCollateral :=
    calculateAfterLockedCollateral lockedCollateral depositAmount None in
  calculateDaiYieldFromCollateral (plus debt debtOffset) liquidationRatio
    generateAmount None price afterLockedCollateral ilkDebtAvailable.

Definition applyManageVaultCalculations (state : ManageVaultState)
    : ManageVaultState :=
  let depositAmount := state.(depositAmount) in
  let generateAmount := state.(generateAmount) in
  let withdrawAmount := state.(withdrawAmount) in
  let paybackAmount := state.(paybackAmount) in
  let collateralBalance := state.(balanceInfo).(collateralBalance) in
  let daiBalance := state.(balanceInfo).(daiBalance) in
  let liquidationRatio := state.(ilkData).(liquidationRatio) in
  let ilkDebtAvailable := state.(ilkData).(ilkDebtAvailable) in
  let currentCollateralPrice := state.(priceInfo).(currentCollateralPrice) in
  let nextCollateralPrice := state.(priceInfo).(nextCollateralPrice) in
  let lockedCollateral := state.(vault).(lockedCollateral) in
  let debt := state.(vault).(debt) in
  let debtOffset := state.(vault).(debtOffset) in

  let shouldPaybackAll :=
    determineShouldPaybackAll paybackAmount debt debtOffset daiBalance in
  let afterLockedCollateral :=
    calculateAfterLockedCollateral lockedCollateral depositAmount withdrawAmount in
  let afterLockedCollateralUSD := times afterLockedCollateral currentCollateralPrice in
  let afterLockedCollateralUSDAtNextPrice :=
    times afterLockedCollateral nextCollateralPrice in
  let afterDebt :=
    calculateAfterDebt shouldPaybackAll generateAmount paybackAmount debt in

  let afterBackingCollateral :=
    calculateAfterBackingCollateral afterDebt liquidationRatio currentCollateralPrice in
  let afterBackingCollateralAtNextPrice :=
    calculateAfterBackingCollateral afterDebt liquidationRatio nextCollateralPrice in

  let afterFreeCollateral :=
    calculateAfterFreeCollateral afterLockedCollateral afterBackingCollateral in
  let afterFreeCollateralAtNextPrice :=
    calculateAfterFreeCollateral afterLockedCollateral
      afterBackingCollateralAtNextPrice in

  let maxWithdrawAmountAtCurrentPrice :=
    calculateMaxWithdrawAmount paybackAmount shouldPaybackAll lockedCollateral
      debt debtOffset liquidationRatio currentCollateralPrice in
  let maxWithdrawAmountAtNextPrice :=
    calculateMaxWithdrawAmount paybackAmount shouldPaybackAll lockedCollateral
      debt debtOffset liquidationRatio nextCollateralPrice in
  let maxWithdrawAmount :=
    minimum maxWithdrawAmountAtCurrentPrice maxWithdrawAmountAtNextPrice in
  let maxWithdrawAmountUSD := times maxWithdrawAmount currentCollateralPrice in

  let maxDepositAmount := collateralBalance in
  let maxDepositAmountUSD := times collateralBalance currentCollateralPrice in

  let daiYieldFromTotalCollateral :=
    calculateDaiYieldFromCollateral afterDebt liquidationRatio generateAmount
      paybackAmount currentCollateralPrice afterLockedCollateral ilkDebtAvailable in
  let daiYieldFromTotalCollateralAtNextPrice :=
    calculateDaiYieldFromCollateral afterDebt liquidationRatio generateAmount
      paybackAmount nextCollateralPrice afterLockedCollateral ilkDebtAvailable in

  let maxGenerateAmountAtCurrentPrice :=
    calculateMaxGenerateAmount depositAmount None debt debtOffset lockedCollateral
      liquidationRatio currentCollateralPrice ilkDebtAvailable in
  let maxGenerateAmountAtNextPrice :=
    calculateMaxGenerateAmount depositAmount None debt debtOffset lockedCollateral
      liquidationRatio nextCollateralPrice ilkDebtAvailable in
  let maxGenerateAmount :=
    minimum maxGenerateAmountAtCurrentPrice maxGenerateAmountAtNextPrice in

  let maxPaybackAmount := if lt daiBalance debt then daiBalance else debt in

  let afterCollateralizationRatio :=
    if isPositive afterLockedCollateralUSD && isPositive afterDebt
    then div afterLockedCollateralUSD afterDebt
    else zero in
  let afterCollateralizationRatioAtNextPrice :=
    if isPositive afterLockedCollateralUSDAtNextPrice && isPositive afterDebt
    then div afterLockedCollateralUSDAtNextPrice afterDebt
    else zero in
  let afterLiquidationPrice :=
    if isPositive afterDebt && isPositive afterLockedCollateral
    then div (times afterDebt liquidationRatio) afterLockedCollateral
    else zero in

  {| depositAmount := depositAmount;
     generateAmount := generateAmount;
     withdrawAmount := withdrawAmount;
     paybackAmount := paybackAmount;
     balanceInfo := state.(balanceInfo);
     ilkData := state.(ilkData);
     priceInfo := state.(priceInfo);
     vault := state.(vault);
     calculations := {|
       maxDepositAmount := maxDepositAmount;
       maxDepositAmountUSD := maxDepositAmountUSD;
       maxWithdrawAmountAtCurrentPrice := maxWithdrawAmountAtCurrentPrice;
       maxWithdrawAmountAtNextPrice := maxWithdrawAmountAtNextPrice;
       maxWithdrawAmount := maxWithdrawAmount;
       maxWithdrawAmountUSD := maxWithdrawAmountUSD;
       maxGenerateAmount := maxGenerateAmount;
       maxGenerateAmountAtCurrentPrice := maxGenerateAmountAtCurrentPrice;
       maxGenerateAmountAtNextPrice := maxGenerateAmountAtNextPrice;
       maxPaybackAmount := maxPaybackAmount;
       daiYieldFromTotalCollateral := daiYieldFromTotalCollateral;
       daiYieldFromTotalCollateralAtNextPrice :=
         daiYieldFromTotalCollateralAtNextPrice;
       afterDebt := afterDebt;
       afterLiquidationPrice := afterLiquidationPrice;
       afterCollateralizationRatio := afterCollateralizationRatio;
       afterCollateralizationRatioAtNextPrice :=
         afterCollateralizationRatioAtNextPrice;
       afterFreeCollateral := afterFreeCollateral;
       afterFreeCollateralAtNextPrice := afterFreeCollateralAtNextPrice;
       afterBackingCollateral := afterBackingCollateral;
       afterBackingCollateralAtNextPrice := afterBackingCollateralAtNextPrice;
       afterLockedCollateral := afterLockedCollateral;
       shouldPaybackAll := shouldPaybackAll
     |}
  |}.

(** A state as the form holds it before the first calculation. *)
Definition mkState
    (deposit generate withdraw payback : option BigNumber.t)
    (collateralBal daiBal liqRatio ilkAvail curPrice nextPrice locked debt0 offset
      : BigNumber.t) : ManageVaultState :=
  {| depositAmount := deposit;
     generateAmount := generate;
     withdrawAmount := withdraw;
     paybackAmount := payback;
     balanceInfo := {| collateralBalance := collateralBal; daiBalance := daiBal |};
     ilkData := {| liquidationRatio := liqRatio; ilkDebtAvailable := ilkAvail |};
     priceInfo :=
       {| currentCollateralPrice := curPrice; nextCollateralPrice := nextPrice |};
     vault :=
       {| lockedCollateral := locked; debt := debt0; debtOffset := offset |};
     calculations := defaultManageVaultCalculations |}.

(** *** Notions used to state the properties *)

(** "Clamped at zero": [amount.gte(zero) ? amount : zero]. *)
Definition clampAtZero (amount : BigNumber.t) : BigNumber.t :=
  if gte amount zero then amount else zero.

(** A finite number greater than zero. *)
Definition strictlyPositive (x : BigNumber.t) : bool := isFinite x && gt x zero.




(** *** Sample states

    [mkState deposit generate withdraw payback collateralBalance daiBalance
    liquidationRatio ilkDebtAvailable currentPrice nextPrice lockedCollateral
    debt debtOffset]. *)

(** 200 locked, debt 100, liquidation ratio 1.5, price 1, nothing entered. *)
Definition stPlain : ManageVaultState :=
  mkState None None None None
    (ofZ 100) (ofZ 100) (dec 15 (-1)) (ofZ 1000) (ofZ 1) (ofZ 1)
    (ofZ 200) (ofZ 100) (ofZ 0).

(** The same vault with a current price of -1. *)
Definition stNegativePrice : ManageVaultState :=
  mkState None None None None
    (ofZ 100) (ofZ 100) (dec 15 (-1)) (ofZ 1000) (ofZ (-1)) (ofZ 1)
    (ofZ 200) (ofZ 100) (ofZ 0).

(** The same vault with a current price of 0. *)
Definition stZeroPrice : ManageVaultState :=
  mkState None None None None
    (ofZ 100) (ofZ 100) (dec 15 (-1)) (ofZ 1000) (ofZ 0) (ofZ 1)
    (ofZ 200) (ofZ 100) (ofZ 0).

(** A vault without debt, 10 locked, and a payback amount of 0 entered. *)
Definition stZeroDebtPayback : ManageVaultState :=
  mkState None None None (Some (ofZ 0))
    (ofZ 100) (ofZ 0) (dec 15 (-1)) (ofZ 1000) (ofZ 1) (ofZ 1)
    (ofZ 10) (ofZ 0) (ofZ 0).

(** 10 locked, no debt, 5 being deposited, price 1. *)
Definition stDepositNoDebt : ManageVaultState :=
  mkState (Some (ofZ 5)) None None None
    (ofZ 100) (ofZ 100) (dec 15 (-1)) (ofZ 1000) (ofZ 1) (ofZ 1)
    (ofZ 10) (ofZ 0) (ofZ 0).

(** 200 locked, debt 100, and all 200 being withdrawn. *)
Definition stWithdrawAll : ManageVaultState :=
  mkState None None (Some (ofZ 200)) None
    (ofZ 100) (ofZ 100) (dec 15 (-1)) (ofZ 1000) (ofZ 1) (ofZ 1)
    (ofZ 200) (ofZ 100) (ofZ 0).

(** 100 locked, debt 60, 50 being paid back, and a debt ceiling with no
    room left ([ilkDebtAvailable = 0]). *)
Definition stCeilingReached : ManageVaultState :=
  mkState None None None (Some (ofZ 50))
    (ofZ 100) (ofZ 100) (dec 15 (-1)) (ofZ 0) (ofZ 1) (ofZ 1)
    (ofZ 100) (ofZ 60) (ofZ 0).

(** All four amounts entered at once. *)
Definition stBothDirections : ManageVaultState :=
  mkState (Some (ofZ 5)) (Some (ofZ 20)) (Some (ofZ 7)) (Some (ofZ 30))
    (ofZ 100) (ofZ 100) (dec 15 (-1)) (ofZ 1000) (ofZ 1) (ofZ 1)
    (ofZ 200) (ofZ 100) (ofZ 0).

(** 200 locked, debt 100 with an offset of 0.5, 40 being paid back; the
    next price is 2. *)
Definition stPaybackSome : ManageVaultState :=
  mkState None None None (Some (ofZ 40))
    (ofZ 100) (ofZ 100) (dec 15 (-1)) (ofZ 1000) (ofZ 1) (ofZ 2)
    (ofZ 200) (ofZ 100) (dec 5 (-1)).



End ManageVault.

(** ** Transaction manager *)
Module Transactions.

Local Open Scope string_scope.
Local Open Scope Z_scope.

(** [TxStatus] of [@oasisdex/transactions]. *)
Inductive TxStatus : Type :=
| WaitingForApproval
| CancelledByTheUser
| Propagating
| WaitingForConfirmation
| Success
| Error
| Failure.

(** [TxState<TxData>], as far as the manager reads it: its [txNo],
    [status] and [lastChange] (written [txStatus] and [txLastChange] here,
    apart from the fields of [TxMgrTransaction]).  Dates are kept as their
    [getTime()] value, in milliseconds. *)
Record TxState : Type := {
  txNo : Z;
  txStatus : TxStatus;
  txLastChange : Z
}.

(** [OnrampOrder] ([WyreOrder], [MoonpayOrder], [LatamexOrder]); the
    status is one of the provider's string literals. *)
Record OnrampOrder : Type := {
  orderId : string;
  orderStatus : string;
  orderDate : Z;
  orderType : string
}.

(** The tagged union of [TxMgrTransaction]: the [kind] with its [status]
    and [raw] fields. *)
Inductive TxKind : Type :=
| blockchain (status : TxStatus) (raw : TxState)
| wyre (status : string) (raw : OnrampOrder)
| moonpay (status : string) (raw : OnrampOrder)
| latamex (status : string) (raw : OnrampOrder).

Record TxMgrTransaction : Type := {
  id : string;
  lastChange : Z;
  kind : TxKind
}.

Record NotificationTransaction : Type := {
  tx : TxMgrTransaction;
  withDescription : bool
}.

Record TransactionManager : Type := {
  pendingTransactions : list TxMgrTransaction;
  recentTransactions : list TxMgrTransaction;
  notificationTransaction : option NotificationTransaction
}.

(** [isDone] of [@oasisdex/transactions]: the status is one of
    [CancelledByTheUser], [Error], [Failure], [Success]. *)
Definition isDone (state : TxState) : bool :=
  match state.(txStatus) with
  | CancelledByTheUser | Error | Failure | Success => true
  | _ => false
  end.

(** [['complete', 'failed'].indexOf(status) >= 0]. *)
Definition orderDone (status : string) : bool :=
  existsb (String.eqb status) ["complete"; "failed"].

Definition isTxDone (tr : TxMgrTransaction) : bool :=
  match tr.(kind) with
  | blockchain _ raw => isDone raw
  | wyre status _ | moonpay status _ | latamex status _ => orderDone status
  end.

Definition txState2Transaction (raw : TxState) : TxMgrTransaction :=
  {| id := NilEmpty.string_of_int (Z.to_int raw.(txNo));
     lastChange := raw.(txLastChange);
     kind := blockchain raw.(txStatus) raw |}.

Definition wyreOrder2Transaction (raw : OnrampOrder) : TxMgrTransaction :=
  {| id := raw.(orderId);
     lastChange := raw.(orderDate);
     kind := wyre raw.(orderStatus) raw |}.

Definition moonpayOrder2Transaction (raw : OnrampOrder) : TxMgrTransaction :=
  {| id := raw.(orderId);
     lastChange := raw.(orderDate);
     kind := moonpay raw.(orderStatus) raw |}.

Definition latamexOrder2Transaction (raw : OnrampOrder) : TxMgrTransaction :=
  {| id := raw.(orderId);
     lastChange := raw.(orderDate);
     kind := latamex raw.(orderStatus) raw |}.

(** The result of [compareTransactions]: a number, or the thrown
    [Error('Should not get here!')]. *)
Inductive Outcome : Type :=
| Returns (n : Z)
| Throws (message : string).

Definition compareTransactions (t1 t2 : TxMgrTransaction) : Outcome :=
  let t1Done := isTxDone t1 in
  let t2Done := isTxDone t2 in
  if Bool.eqb t1Done t2Done then Returns (t2.(lastChange) - t1.(lastChange))
  else if t1Done && negb t2Done then Returns 1
  else if negb t1Done && t2Done then Returns (-1)
  else Throws "Should not get here!".

(** The [switch (tx.status)] of [filterTransactions]: the four groups of
    [case] labels, and [default]. *)
Inductive Tier : Type := SignTier | SubmittedTier | SuccessTier | ErrorTier | NoTier.

(** The value of a [TxStatus] member: the string enum of
    [@oasisdex/transactions], each member its own name. *)
Definition statusValue (s : TxStatus) : string :=
  match s with
  | WaitingForApproval => "WaitingForApproval"
  | CancelledByTheUser => "CancelledByTheUser"
  | Propagating => "Propagating"
  | WaitingForConfirmation => "WaitingForConfirmation"
  | Success => "Success"
  | Error => "Error"
  | Failure => "Failure"
  end.

(** [tx.status], the string the [switch] tests, whatever the kind. *)
Definition statusOf (t : TxMgrTransaction) : string :=
  match t.(kind) with
  | blockchain status _ => statusValue status
  | wyre status _ | moonpay status _ | latamex status _ => status
  end.

(** The [case] labels, group by group, in the order of the source. *)
Definition tierOfStatus (s : string) : Tier :=
  if existsb (String.eqb s) ["initialized"; "WaitingForApproval"] then SignTier
  else if existsb (String.eqb s)
            ["pending"; "Propagating"; "WaitingForConfirmation"]
  then SubmittedTier
  else if existsb (String.eqb s) ["accepted"; "completed"; "complete"; "Success"]
  then SuccessTier
  else if existsb (String.eqb s)
            ["rejected"; "expired"; "incomplete"; "failed";
             "CancelledByTheUser"; "Error"; "Failure"]
  then ErrorTier
  else NoTier.

Definition tierOf (t : TxMgrTransaction) : Tier := tierOfStatus (statusOf t).

(** The six arrays the [forEach] fills by [push]. *)
Record Buckets : Type := {
  pendingB : list TxMgrTransaction;
  recentB : list TxMgrTransaction;
  signB : list TxMgrTransaction;
  errorB : list TxMgrTransaction;
  successB : list TxMgrTransaction;
  submittedB : list TxMgrTransaction
}.

Definition emptyBuckets : Buckets :=
  {| pendingB := []; recentB := []; signB := []; errorB := [];
     successB := []; submittedB := [] |}.

Definition push (b : Buckets) (t : TxMgrTransaction) : Buckets :=
  match tierOf t with
  | SignTier =>
      {| pendingB := b.(pendingB) ++ [t]; recentB := b.(recentB);
         signB := b.(signB) ++ [t]; errorB := b.(errorB);
         successB := b.(successB); submittedB := b.(submittedB) |}
  | SubmittedTier =>
      {| pendingB := b.(pendingB) ++ [t]; recentB := b.(recentB);
         signB := b.(signB); errorB := b.(errorB);
         successB := b.(successB); submittedB := b.(submittedB) ++ [t] |}
  | SuccessTier =>
      {| pendingB := b.(pendingB); recentB := b.(recentB) ++ [t];
         signB := b.(signB); errorB := b.(errorB);
         successB := b.(successB) ++ [t]; submittedB := b.(submittedB) |}
  | ErrorTier =>
      {| pendingB := b.(pendingB); recentB := b.(recentB) ++ [t];
         signB := b.(signB); errorB := b.(errorB) ++ [t];
         successB := b.(successB); submittedB := b.(submittedB) |}
  | NoTier => b
  end.

(** [moment(new Date()) < moment(tx.lastChange).add(10, 'seconds')], with
    [now] the value of [new Date()] during the call. *)
Definition withinWindow (now : Z) (t : TxMgrTransaction) : bool :=
  now <? t.(lastChange) + 10000.

(** [moment(new Date()) > moment(tx.lastChange).add(10, 'seconds')]. *)
Definition pastWindow (now : Z) (t : TxMgrTransaction) : bool :=
  t.(lastChange) + 10000 <? now.

(** One turn of the [for] loop over [errorTransactions] (and of the same
    loop over [successTransactions]). *)
Definition timedStep (now : Z) (notification : option NotificationTransaction)
    (t : TxMgrTransaction) : option NotificationTransaction :=
  match notification with
  | None =>
      if withinWindow now t
      then Some {| tx := t; withDescription := true |}
      else None
  | Some _ => if pastWindow now t then None else notification
  end.

Definition isNone {A : Type} (o : option A) : bool :=
  match o with None => true | Some _ => false end.

Definition filterTransactions (now : Z) (transactions : list TxMgrTransaction)
    : TransactionManager :=
  let b := fold_left push transactions emptyBuckets in
  let n0 : option NotificationTransaction := None in
  let n1 :=
    match b.(signB) with
    | t :: _ => Some {| tx := t; withDescription := true |}
    | [] => n0
    end in
  let n2 :=
    if isNone n1 && (0 <? Z.of_nat (List.length b.(errorB)))
    then fold_left (timedStep now) b.(errorB) n1
    else n1 in
  let n3 :=
    if isNone n2 && (0 <? Z.of_nat (List.length b.(successB)))
    then fold_left (timedStep now) b.(successB) n2
    else n2 in
  let n4 :=
    match n3, b.(submittedB) with
    | None, t :: _ => Some {| tx := t; withDescription := withinWindow now t |}
    | _, _ => n3
    end in
  {| recentTransactions := b.(recentB);
     pendingTransactions := b.(pendingB);
     notificationTransaction := n4 |}.

(** [Array.prototype.sort(compareTransactions)]: the stable sort by the
    comparator, [a] staying before [b] unless [compareTransactions(a, b) > 0]. *)
Definition staysBefore (a b : TxMgrTransaction) : bool :=
  match compareTransactions a b with
  | Returns n => n <=? 0
  | Throws _ => true
  end.

Fixpoint insertSorted (a : TxMgrTransaction) (l : list TxMgrTransaction)
    : list TxMgrTransaction :=
  match l with
  | [] => [a]
  | b :: l' => if staysBefore a b then a :: b :: l' else b :: insertSorted a l'
  end.

Definition sort (l : list TxMgrTransaction) : list TxMgrTransaction :=
  fold_right insertSorted [] l.

(** The function [createTransactionManager] maps over the combined
    streams, at the tick whose [new Date()] is [now]: first the merged and
    sorted [allTransactions], then [filterTransactions]. *)
Definition allTransactions
    (transactions : list TxState) (onrampOrders : list OnrampOrder)
    : list TxMgrTransaction :=
  let ofType ty := filter (fun o => String.eqb o.(orderType) ty) onrampOrders in
  sort (map txState2Transaction transactions
        ++ map wyreOrder2Transaction (ofType "wyre")
        ++ map moonpayOrder2Transaction (ofType "moonpay")
        ++ map latamexOrder2Transaction (ofType "latamex")).

Definition createTransactionManager (now : Z)
    (transactions : list TxState) (onrampOrders : list OnrampOrder)
    : TransactionManager :=
  filterTransactions now (allTransactions transactions onrampOrders).

(** The transaction a manager state shows as notification, if any. *)
Definition selected (m : TransactionManager) : option TxMgrTransaction :=
  option_map tx m.(notificationTransaction).

Definition Tier_eqb (a b : Tier) : bool :=
  match a, b with
  | SignTier, SignTier | SubmittedTier, SubmittedTier
  | SuccessTier, SuccessTier | ErrorTier, ErrorTier | NoTier, NoTier => true
  | _, _ => false
  end.

(** The transactions of a list that the [switch] puts in a given tier, in
    the order of the list. *)
Definition inTier (T : Tier) (l : list TxMgrTransaction) : list TxMgrTransaction :=
  filter (fun t => Tier_eqb (tierOf t) T) l.

(** The order the sorted list is in. *)
Definition before (a b : TxMgrTransaction) : Prop := staysBefore a b = true.

(** A blockchain transaction built by [txState2Transaction] carries the
    status of its [raw] state. *)
Definition consistent (t : TxMgrTransaction) : Prop :=
  match t.(kind) with
  | blockchain status raw => raw.(txStatus) = status
  | _ => True
  end.

(** *** Sample transactions, at a tick [sampleNow] *)
Definition sampleNow : Z := 1000000.

Definition failureAt (no ago : Z) : TxState :=
  {| txNo := no; txStatus := Failure; txLastChange := sampleNow - ago |}.

Definition propagatingAt (no ago : Z) : TxState :=
  {| txNo := no; txStatus := Propagating; txLastChange := sampleNow - ago |}.

(** A Latamex order rejected 8 seconds ago, and a Wyre order that failed 2
    seconds ago. *)
Definition orderRejected : OnrampOrder :=
  {| orderId := "latamex-1"; orderStatus := "rejected";
     orderDate := sampleNow - 8000; orderType := "latamex" |}.

Definition orderFailed : OnrampOrder :=
  {| orderId := "wyre-1"; orderStatus := "failed";
     orderDate := sampleNow - 2000; orderType := "wyre" |}.

End Transactions.

(** ** Notions for the further properties *)
Module Scale.

Import BigNumber.

Definition sgn (s : Sign) : Z := match s with Pos => 1 | Neg => -1 end.

(** The value of a finite number counted in units of [10^k]: an integer as
    soon as [k] is not above the exponent. *)
Definition scaled (k : Z) (x : BigNumber.t) : Z :=
  match x with
  | Finite s c e => sgn s * (Z.of_N c * 10 ^ (e - k))
  | _ => 0
  end.

(** [k] is a scale at which [x] is counted exactly. *)
Definition fits (k : Z) (x : BigNumber.t) : Prop :=
  match x with
  | Finite _ c e => c = 0%N \/ k <= e
  | _ => False
  end.

(** The exponent of a finite [x] is at least [k]. *)
Definition above (k : Z) (x : BigNumber.t) : Prop :=
  match x with
  | Finite _ _ e => k <= e
  | _ => False
  end.

End Scale.

Module TransactionLists.

Import Transactions.

Local Open Scope string_scope.
Local Open Scope Z_scope.
Local Open Scope list_scope.

(** The transactions [createTransactionManager] concatenates, before the
    sort. *)
Definition merged
    (transactions : list TxState) (onrampOrders : list OnrampOrder)
    : list TxMgrTransaction :=
  let ofType ty := filter (fun o => String.eqb o.(orderType) ty) onrampOrders in
  map txState2Transaction transactions
  ++ map wyreOrder2Transaction (ofType "wyre")
  ++ map moonpayOrder2Transaction (ofType "moonpay")
  ++ map latamexOrder2Transaction (ofType "latamex").

(** The statuses that [filterTransactions] lists as pending, and those it
    lists as recent. *)
Definition pendingStatus (t : TxMgrTransaction) : bool :=
  match tierOf t with
  | SignTier | SubmittedTier => true
  | _ => false
  end.

Definition recentStatus (t : TxMgrTransaction) : bool :=
  match tierOf t with
  | SuccessTier | ErrorTier => true
  | _ => false
  end.

(** The order of the sorted list, spelled out. *)
Definition unfinishedThenLatest (a b : TxMgrTransaction) : Prop :=
  (isTxDone a = true -> isTxDone b = true) /\
  (isTxDone b = isTxDone a -> lastChange b <= lastChange a).

Definition laterFirst (a b : TxMgrTransaction) : Prop :=
  lastChange b <= lastChange a.

(** A success 3 seconds ago. *)
Definition successAt (no ago : Z) : TxState :=
  {| txNo := no; txStatus := Success; txLastChange := sampleNow - ago |}.

(** An order of a provider the manager does not know. *)
Definition orderOther : OnrampOrder :=
  {| orderId := "other-1"; orderStatus := "pending";
     orderDate := sampleNow - 1000; orderType := "ramp" |}.

End TransactionLists.

(** * Properties *)

(** ** Facts about the [BigNumber] operations *)
Module BigNumberFacts.

Import BigNumber.

Lemma strip_nonzero fuel : forall c e,
  c <> 0%N -> fst (strip fuel c e) <> 0%N.
Proof.
  induction fuel as [|fuel IH]; intros c e Hc; simpl; [exact Hc|].
  destruct (c mod 10 =? 0)%N eqn:Hm; [|exact Hc].
  apply IH. apply N.eqb_eq in Hm.
  intro Hq. apply Hc.
  rewrite (N.div_mod c 10) by discriminate. rewrite Hq, Hm. reflexivity.
Qed.

Lemma normalise_shape s c e :
  exists c' e', normalise s c e = Finite s c' e' /\ (c <> 0%N -> c' <> 0%N).
Proof.
  unfold normalise. destruct (c =? 0)%N eqn:Hc.
  - apply N.eqb_eq in Hc. exists 0%N, 0. split; [reflexivity|congruence].
  - pose proof (strip_nonzero (N.to_nat (N.size c)) c e) as Hs.
    destruct (strip (N.to_nat (N.size c)) c e) as [c' e'].
    exists c', e'. split; [reflexivity|exact Hs].
Qed.

Lemma normalise_Finite s c e : exists c' e', normalise s c e = Finite s c' e'.
Proof.
  destruct (normalise_shape s c e) as (c' & e' & H & _). eauto.
Qed.

Lemma normalise_isFinite s c e : isFinite (normalise s c e) = true.
Proof.
  destruct (normalise_Finite s c e) as (c' & e' & ->). reflexivity.
Qed.

Lemma normalise_isPositive s c e :
  isPositive (normalise s c e) = Sign_eqb s Pos.
Proof.
  destruct (normalise_Finite s c e) as (c' & e' & ->). reflexivity.
Qed.

(** [compare] is antisymmetric, [NaN] apart. *)
Lemma cmp_mag_antisym c1 e1 c2 e2 :
  cmp_mag c2 e2 c1 e1 = CompOpp (cmp_mag c1 e1 c2 e2).
Proof.
  unfold cmp_mag. rewrite (Z.min_comm e2 e1). apply N.compare_antisym.
Qed.

Lemma compare_antisym x y :
  compare y x = option_map CompOpp (compare x y).
Proof.
  destruct x as [|s1|s1 c1 e1], y as [|s2|s2 c2 e2]; simpl; try reflexivity;
    try (destruct s1; reflexivity); try (destruct s2; reflexivity);
    try (destruct s1, s2; reflexivity).
  destruct (c1 =? 0)%N, (c2 =? 0)%N; try (destruct s1, s2; reflexivity).
  rewrite cmp_mag_antisym.
  destruct s1, s2; simpl; try reflexivity;
    destruct (cmp_mag c1 e1 c2 e2); reflexivity.
Qed.

Lemma gt_lte x y : gt x y = true -> lte y x = true.
Proof.
  unfold gt, lte. rewrite (compare_antisym x y).
  destruct (compare x y) as [[| |]|]; simpl; congruence.
Qed.

Lemma not_gt_lte x y :
  isNaN x = false -> isNaN y = false -> gt x y = false -> lte x y = true.
Proof.
  unfold gt, lte. intros Hx Hy.
  destruct (compare x y) as [[| |]|] eqn:Hc; try congruence.
  destruct x, y; simpl in *; try discriminate;
    repeat match type of Hc with
           | context [if ?b then _ else _] => destruct b
           end; discriminate.
Qed.

Lemma lte_refl x : isNaN x = false -> lte x x = true.
Proof.
  unfold lte. destruct x as [|s|s c e]; simpl; try discriminate; intros _.
  - destruct s; reflexivity.
  - destruct (c =? 0)%N; [reflexivity|].
    unfold cmp_mag. rewrite N.compare_refl. destruct s; reflexivity.
Qed.

Lemma gte_not_NaN x y : gte x y = true -> isNaN x = false /\ isNaN y = false.
Proof.
  unfold gte. destruct x, y; simpl; try discriminate; auto.
Qed.

Lemma lt_not_gte x y : lt x y = true -> gte x y = false.
Proof.
  unfold lt, gte. destruct (compare x y) as [[| |]|]; congruence.
Qed.

Lemma plus_NaN_l x y : isNaN (plus x y) = false -> isNaN x = false.
Proof. destruct x; simpl; congruence. Qed.

Lemma minimum_cases a b :
  isNaN a = false -> isNaN b = false ->
  (minimum a b = a \/ minimum a b = b) /\
  lte (minimum a b) a = true /\ lte (minimum a b) b = true.
Proof.
  intros Ha Hb. unfold minimum.
  destruct b as [|sb|sb cb eb] eqn:Eb; try discriminate; rewrite <- Eb in *;
    (destruct (gt a b) eqn:Hg;
     [ repeat split; [right; reflexivity | apply gt_lte; exact Hg
                     | apply lte_refl; exact Hb]
     | repeat split; [left; reflexivity | apply lte_refl; exact Ha
                     | apply not_gt_lte; assumption] ]).
Qed.

End BigNumberFacts.

(** ** The manage-vault calculations *)
Module ManageVaultSpec.

Import BigNumber BigNumberFacts ManageVault.

Lemma isPositive_gte_zero x : isPositive x = true -> gte x zero = true.
Proof.
  destruct x as [|s|s c e]; simpl; try discriminate;
    destruct s; try discriminate; intros _; unfold gte, zero; simpl;
    [reflexivity | destruct (c =? 0)%N; reflexivity].
Qed.

Lemma clampAtZero_nonneg a : gte (clampAtZero a) zero = true.
Proof.
  unfold clampAtZero. destruct (gte a zero) eqn:H; [exact H | reflexivity].
Qed.

Lemma clampAtZero_not_NaN a : isNaN (clampAtZero a) = false.
Proof. exact (proj1 (gte_not_NaN _ _ (clampAtZero_nonneg a))). Qed.

Lemma strictlyPositive_shape x :
  strictlyPositive x = true ->
  exists c e, x = Finite Pos c e /\ (c =? 0)%N = false.
Proof.
  unfold strictlyPositive, gt, zero.
  destruct x as [|s|s c e]; simpl; try discriminate.
  destruct (c =? 0)%N eqn:Hc; simpl; try discriminate.
  destruct s; simpl; try discriminate. eauto.
Qed.

Lemma calculateAfterLockedCollateral_clamp l d w :
  calculateAfterLockedCollateral l d w =
  clampAtZero match d with
              | Some d' => plus l d'
              | None => match w with Some w' => minus l w' | None => l end
              end.
Proof. reflexivity. Qed.

Lemma calculateAfterDebt_clamp g p d :
  calculateAfterDebt false g p d =
  clampAtZero match g with
              | Some g' => plus d g'
              | None => match p with Some p' => minus d p' | None => d end
              end.
Proof. reflexivity. Qed.

Lemma calculateAfterLockedCollateral_nonneg l d w :
  gte (calculateAfterLockedCollateral l d w) zero = true.
Proof. rewrite calculateAfterLockedCollateral_clamp. apply clampAtZero_nonneg. Qed.

Lemma calculateAfterDebt_nonneg b g p d :
  gte (calculateAfterDebt b g p d) zero = true.
Proof.
  destruct b; [reflexivity|].
  rewrite calculateAfterDebt_clamp. apply clampAtZero_nonneg.
Qed.

Lemma calculateAfterFreeCollateral_nonneg l b :
  gte (calculateAfterFreeCollateral l b) zero = true.
Proof. apply (clampAtZero_nonneg (minus l b)). Qed.

Lemma calculateAfterBackingCollateral_nonneg d liq price :
  strictlyPositive liq = true -> strictlyPositive price = true ->
  gte (calculateAfterBackingCollateral d liq price) zero = true.
Proof.
  intros Hl Hp.
  destruct (strictlyPositive_shape _ Hl) as (cl & el & -> & Hcl).
  destruct (strictlyPositive_shape _ Hp) as (cp & ep & -> & Hcp).
  unfold calculateAfterBackingCollateral.
  destruct (isPositive d) eqn:Hd; simpl; [|reflexivity].
  apply isPositive_gte_zero.
  destruct d as [|s|s c e]; simpl in Hd; try discriminate;
    destruct s; try discriminate.
  - simpl. rewrite Hcl. reflexivity.
  - unfold times.
    destruct (normalise_Finite (sign_mul Pos Pos) (c * cl) (e + el))
      as (c' & e' & ->).
    unfold div. rewrite Hcp.
    destruct (c' =? 0)%N; [reflexivity|].
    rewrite normalise_isPositive. reflexivity.
Qed.

(** C1, amended.  For every input state the projected locked collateral,
    debt and free collateral (at the current and at the next price) are
    greater than or equal to zero: each is clamped.  The backing
    collateral is not clamped; it is greater than or equal to zero
    whenever the liquidation ratio and the price it is computed at are
    finite and greater than zero. *)
Theorem C1_after_amounts_nonneg (st : ManageVaultState) :
  let c := calculations (applyManageVaultCalculations st) in
  gte (afterLockedCollateral c) zero = true /\
  gte (afterDebt c) zero = true /\
  gte (afterFreeCollateral c) zero = true /\
  gte (afterFreeCollateralAtNextPrice c) zero = true /\
  (strictlyPositive (liquidationRatio (ilkData st)) = true ->
   strictlyPositive (currentCollateralPrice (priceInfo st)) = true ->
   gte (afterBackingCollateral c) zero = true) /\
  (strictlyPositive (liquidationRatio (ilkData st)) = true ->
   strictlyPositive (nextCollateralPrice (priceInfo st)) = true ->
   gte (afterBackingCollateralAtNextPrice c) zero = true).
Proof.
  cbv zeta. unfold applyManageVaultCalculations. cbn [calculations
    afterLockedCollateral afterDebt afterFreeCollateral
    afterFreeCollateralAtNextPrice afterBackingCollateral
    afterBackingCollateralAtNextPrice].
  refine (conj _ (conj _ (conj _ (conj _ (conj _ _))))).
  - apply calculateAfterLockedCollateral_nonneg.
  - apply calculateAfterDebt_nonneg.
  - apply calculateAfterFreeCollateral_nonneg.
  - apply calculateAfterFreeCollateral_nonneg.
  - intros Hl Hp. apply calculateAfterBackingCollateral_nonneg; assumption.
  - intros Hl Hp. apply calculateAfterBackingCollateral_nonneg; assumption.
Qed.

Lemma C1_after_amounts_nonneg_witness :
  let c := calculations (applyManageVaultCalculations stPlain) in
  gte (afterLockedCollateral c) zero = true /\
  gte (afterDebt c) zero = true /\
  gte (afterFreeCollateral c) zero = true /\
  gte (afterFreeCollateralAtNextPrice c) zero = true /\
  gte (afterBackingCollateral c) zero = true /\
  gte (afterBackingCollateralAtNextPrice c) zero = true.
Proof.
  destruct (C1_after_amounts_nonneg stPlain) as (H1 & H2 & H3 & H4 & H5 & H6).
  refine (conj H1 (conj H2 (conj H3 (conj H4 (conj _ _))))).
  - apply H5; reflexivity.
  - apply H6; reflexivity.
Defined.

(** C1 as stated fails: with debt 100, liquidation ratio 1.5 and a current
    price of -1 the projected backing collateral is -150. *)
Lemma C1_counterexample :
  afterBackingCollateral (calculations (applyManageVaultCalculations stNegativePrice))
    = ofZ (-150) /\
  gte (afterBackingCollateral
         (calculations (applyManageVaultCalculations stNegativePrice))) zero = false.
Proof. split; vm_compute; reflexivity. Qed.

(** *** Precedence of the additive direction *)

(** C10.  When both amounts of an opposing pair are entered, the additive
    one is used and the other ignored: with a deposit and a withdraw
    amount the projected locked collateral is [lockedCollateral +
    depositAmount] clamped at zero, and with a generate and a payback
    amount (and [shouldPaybackAll] false) the projected debt is [debt +
    generateAmount] clamped at zero. *)
Theorem C10_additive_direction_wins (st : ManageVaultState) :
  let c := calculations (applyManageVaultCalculations st) in
  (forall d w, depositAmount st = Some d -> withdrawAmount st = Some w ->
     afterLockedCollateral c = clampAtZero (plus (lockedCollateral (vault st)) d)) /\
  (forall g p, generateAmount st = Some g -> paybackAmount st = Some p ->
     shouldPaybackAll c = false ->
     afterDebt c = clampAtZero (plus (debt (vault st)) g)).
Proof.
  cbv zeta. unfold applyManageVaultCalculations.
  cbn [calculations afterLockedCollateral afterDebt shouldPaybackAll].
  split.
  - intros d w Hd Hw. rewrite Hd, Hw. reflexivity.
  - intros g p Hg Hp Hall. rewrite Hg, Hp in *. rewrite Hall. reflexivity.
Qed.

Lemma C10_additive_direction_wins_witness :
  let c := calculations (applyManageVaultCalculations stBothDirections) in
  afterLockedCollateral c = ofZ 205 /\ afterDebt c = ofZ 120.
Proof.
  destruct (C10_additive_direction_wins stBothDirections) as [Hl Hd].
  split.
  - rewrite (Hl (ofZ 5) (ofZ 7)); reflexivity.
  - rewrite (Hd (ofZ 20) (ofZ 30)); reflexivity.
Defined.

(** *** Paying back all debt *)

(** What [determineShouldPaybackAll] decides, with the library's
    [isPositive] as the code calls it. *)
Lemma determineShouldPaybackAll_iff p d off bal :
  determineShouldPaybackAll p d off bal = true <->
  isPositive d = true /\ gte bal (plus d off) = true /\
  exists a, p = Some a /\ gte (plus a PAYBACK_ALL_BOUND) d = true /\
            lte a d = true.
Proof.
  unfold determineShouldPaybackAll. split.
  - intros H. apply andb_prop in H. destruct H as [H Hp].
    apply andb_prop in H. destruct H as [Hd Hb].
    destruct p as [a|]; [|discriminate].
    apply andb_prop in Hp. destruct Hp as [Hg Hn].
    repeat split; try assumption.
    exists a. repeat split; try assumption.
    destruct (gte_not_NaN _ _ Hg) as [Ha Hd'].
    apply not_gt_lte; try assumption.
    + eapply plus_NaN_l; exact Ha.
    + destruct (gt a d); [discriminate | reflexivity].
  - intros (Hd & Hb & a & -> & Hg & Hl).
    rewrite Hd, Hb, Hg. simpl.
    unfold lte in Hl. unfold gt.
    destruct (compare a d) as [[| |]|]; try discriminate; reflexivity.
Qed.

(** The payback-all flag is off whenever the balance is below the debt plus
    its offset. *)
Lemma shouldPaybackAll_needs_balance (st : ManageVaultState) :
  lt (daiBalance (balanceInfo st))
     (plus (debt (vault st)) (debtOffset (vault st))) = true ->
  shouldPaybackAll (calculations (applyManageVaultCalculations st)) = false.
Proof.
  intros H. unfold applyManageVaultCalculations.
  cbn [calculations shouldPaybackAll]. unfold determineShouldPaybackAll.
  rewrite (lt_not_gte _ _ H). rewrite andb_false_r. reflexivity.
Qed.

(** C2, at the input where the code departs from it.  The vault has no
    debt (the debt is zero, not greater than zero) and a payback amount of
    0 is entered; [debt.isPositive()] holds for zero, and the flag
    [shouldPaybackAll] comes out true. *)
Theorem C2_zero_debt_sets_shouldPaybackAll :
  isZero (debt (vault stZeroDebtPayback)) = true /\
  gt (debt (vault stZeroDebtPayback)) zero = false /\
  shouldPaybackAll (calculations (applyManageVaultCalculations stZeroDebtPayback))
    = true.
Proof. repeat split. Qed.

(** *** Ratios and the liquidation price *)


(** The example of the liquidation price: debt 100, ratio 1.5 and 200
    locked give 0.75. *)
Lemma afterLiquidationPrice_example :
  afterLiquidationPrice (calculations (applyManageVaultCalculations stPlain))
    = dec 75 (-2).
Proof. vm_compute. reflexivity. Qed.

(** C7, at the input where the code departs from it.  All 200 units of
    collateral are being withdrawn from a vault with a debt of 100: the
    projected locked collateral is zero, which [isPositive()] accepts, and
    the liquidation price is [150 / 0 = Infinity] instead of zero. *)
Theorem C7_zero_collateral_liquidation_price :
  let c := calculations (applyManageVaultCalculations stWithdrawAll) in
  afterLockedCollateral c = zero /\
  afterDebt c = ofZ 100 /\
  afterLiquidationPrice c = Infinity Pos.
Proof. cbv zeta. repeat split; vm_compute; reflexivity. Qed.

(** C8, at the input where the code departs from it.  Ten units locked,
    five being deposited and no debt: the projected debt is zero, which
    [isPositive()] accepts, and both collateralization ratios are
    [15 / 0 = Infinity] instead of zero. *)
Theorem C8_zero_debt_collateralization_ratio :
  let c := calculations (applyManageVaultCalculations stDepositNoDebt) in
  afterDebt c = zero /\
  afterLockedCollateral c = ofZ 15 /\
  afterCollateralizationRatio c = Infinity Pos /\
  afterCollateralizationRatioAtNextPrice c = Infinity Pos.
Proof. cbv zeta. repeat split; vm_compute; reflexivity. Qed.

(** *** Dai yield *)

(** The cases of [calculateDaiYieldFromCollateral], as the code takes
    them. *)
Lemma calculateDaiYieldFromCollateral_cases
    debt0 liq generate payback price collateral ilkAvail :
  let daiYield := minus (div (times collateral price) liq) debt0 in
  calculateDaiYieldFromCollateral debt0 liq generate payback price collateral ilkAvail =
  if negb (isPositive daiYield) then zero
  else if gt daiYield ilkAvail then
    if isPositive ilkAvail
    then clampAtZero (minus (plus ilkAvail (orZero payback)) (orZero generate))
    else zero
  else daiYield.
Proof. reflexivity. Qed.

(** C5, at the input where the code departs from it.  The debt ceiling
    has no room left ([ilkDebtAvailable] is zero, not greater than zero)
    and the yield from the collateral exceeds it; [isPositive()] holds for
    zero, so the result is [0 + paybackAmount - 0 = 50] instead of zero. *)
Theorem C5_exhausted_ceiling_yield :
  let st := stCeilingReached in
  let c := calculations (applyManageVaultCalculations st) in
  gt (ilkDebtAvailable (ilkData st)) zero = false /\
  gt (minus (div (times (afterLockedCollateral c)
                        (currentCollateralPrice (priceInfo st)))
                 (liquidationRatio (ilkData st)))
            (afterDebt c))
     (ilkDebtAvailable (ilkData st)) = true /\
  daiYieldFromTotalCollateral c = ofZ 50 /\
  calculateDaiYieldFromCollateral (ofZ 10) (dec 15 (-1)) None (Some (ofZ 50))
    (ofZ 1) (ofZ 100) (ofZ 0) = ofZ 50.
Proof. cbv zeta. repeat split; vm_compute; reflexivity. Qed.

(** *** The maximum withdraw amount *)






(** *** Totality, guards and divisions by zero *)

Lemma plus_isFinite x y :
  isFinite x = true -> isFinite y = true -> isFinite (plus x y) = true.
Proof.
  destruct x as [|s1|s1 c1 e1], y as [|s2|s2 c2 e2]; simpl; try discriminate.
  intros _ _.
  match goal with
  | |- context [if ?b then _ else _] => destruct b
  end; [reflexivity | apply normalise_isFinite].
Qed.

Lemma negated_isFinite x : isFinite (negated x) = isFinite x.
Proof. destruct x; reflexivity. Qed.

Lemma minus_isFinite x y :
  isFinite x = true -> isFinite y = true -> isFinite (minus x y) = true.
Proof.
  intros Hx Hy. unfold minus. apply plus_isFinite; [exact Hx|].
  rewrite negated_isFinite. exact Hy.
Qed.









End ManageVaultSpec.

(** ** The transaction manager *)
Module TransactionsSpec.

Import Transactions.

Local Open Scope string_scope.
Local Open Scope Z_scope.
Local Open Scope list_scope.

(** *** The comparator *)

(** C9.  For every pair of transactions the three cases of
    [compareTransactions] are exhaustive (same done-status; first done and
    second not; first not done and second done), so the function returns a
    number and the [throw] is never reached. *)
Theorem C9_compareTransactions_never_throws (t1 t2 : TxMgrTransaction) :
  (isTxDone t1 = isTxDone t2 \/
   (isTxDone t1 = true /\ isTxDone t2 = false) \/
   (isTxDone t1 = false /\ isTxDone t2 = true)) /\
  (exists n, compareTransactions t1 t2 = Returns n) /\
  (forall message, compareTransactions t1 t2 <> Throws message) /\
  compareTransactions t1 t2 =
    Returns (if Bool.eqb (isTxDone t1) (isTxDone t2)
             then lastChange t2 - lastChange t1
             else if isTxDone t1 then 1 else -1).
Proof.
  unfold compareTransactions.
  destruct (isTxDone t1), (isTxDone t2); simpl;
    (split; [tauto | split; [eexists; reflexivity | split;
                                [intros m; discriminate | reflexivity]]]).
Qed.

Lemma staysBefore_eq a b :
  staysBefore a b =
  if Bool.eqb (isTxDone a) (isTxDone b)
  then lastChange b <=? lastChange a
  else negb (isTxDone a).
Proof.
  unfold staysBefore, compareTransactions.
  destruct (isTxDone a), (isTxDone b); simpl; try reflexivity;
    destruct (Z.leb_spec (lastChange b - lastChange a) 0),
             (Z.leb_spec (lastChange b) (lastChange a)); (reflexivity || lia).
Qed.

Lemma staysBefore_refl a : staysBefore a a = true.
Proof.
  rewrite staysBefore_eq, Bool.eqb_reflx. apply Z.leb_refl.
Qed.

Lemma staysBefore_total a b : staysBefore a b = false -> staysBefore b a = true.
Proof.
  rewrite !staysBefore_eq.
  destruct (isTxDone a), (isTxDone b); simpl; try congruence;
    intros H; apply Z.leb_gt in H; apply Z.leb_le; lia.
Qed.

Lemma staysBefore_trans a b c :
  staysBefore a b = true -> staysBefore b c = true -> staysBefore a c = true.
Proof.
  rewrite !staysBefore_eq.
  destruct (isTxDone a), (isTxDone b), (isTxDone c); simpl; try congruence;
    intros H1 H2; apply Z.leb_le in H1; apply Z.leb_le in H2; apply Z.leb_le; lia.
Qed.

(** What the order of the sorted list means: unfinished transactions come
    before finished ones, and among transactions of the same done-status
    the later [lastChange] comes first. *)
Lemma staysBefore_meaning a b :
  staysBefore a b = true ->
  (isTxDone a = true -> isTxDone b = true) /\
  (isTxDone b = isTxDone a -> lastChange b <= lastChange a).
Proof.
  rewrite staysBefore_eq.
  destruct (isTxDone a), (isTxDone b); simpl; try discriminate; intros H;
    split; try congruence; intros _; apply Z.leb_le; exact H.
Qed.

(** *** The sort *)

Lemma insertSorted_In x a l : In x (insertSorted a l) <-> x = a \/ In x l.
Proof.
  induction l as [|b l IH]; simpl.
  - intuition congruence.
  - destruct (staysBefore a b); simpl; [intuition congruence|].
    rewrite IH. intuition congruence.
Qed.

Lemma sort_In x l : In x (sort l) <-> In x l.
Proof.
  induction l as [|a l IH]; simpl; [tauto|].
  rewrite insertSorted_In, IH. intuition congruence.
Qed.

Lemma insertSorted_sorted a l :
  StronglySorted before l -> StronglySorted before (insertSorted a l).
Proof.
  induction 1 as [|b l Hs IH Hb]; simpl.
  - constructor; constructor.
  - destruct (staysBefore a b) eqn:Hab.
    + constructor; [constructor; assumption|].
      constructor; [exact Hab|].
      rewrite Forall_forall in *. intros x Hx.
      eapply staysBefore_trans; [exact Hab | apply Hb; exact Hx].
    + constructor; [exact IH|].
      rewrite Forall_forall in *. intros x Hx.
      apply insertSorted_In in Hx. destruct Hx as [-> | Hx].
      * apply staysBefore_total. exact Hab.
      * apply Hb. exact Hx.
Qed.

Lemma sort_sorted l : StronglySorted before (sort l).
Proof.
  induction l as [|a l IH]; simpl; [constructor|].
  apply insertSorted_sorted. exact IH.
Qed.

Lemma filter_sorted (f : TxMgrTransaction -> bool) l :
  StronglySorted before l -> StronglySorted before (filter f l).
Proof.
  induction 1 as [|a l Hs IH Ha]; simpl; [constructor|].
  destruct (f a); [|exact IH].
  constructor; [exact IH|].
  rewrite Forall_forall in *. intros x Hx.
  apply filter_In in Hx. apply Ha. tauto.
Qed.

Lemma sorted_after_prefix pre t post :
  StronglySorted before (pre ++ t :: post) -> Forall (before t) post.
Proof.
  induction pre as [|a pre IH]; simpl; intros H; inversion H; subst; auto.
Qed.

(** *** The tiers *)

Lemma Tier_eqb_eq a b : Tier_eqb a b = true <-> a = b.
Proof. destruct a, b; simpl; split; congruence. Qed.

Lemma inTier_In T l t : In t (inTier T l) <-> In t l /\ tierOf t = T.
Proof. unfold inTier. rewrite filter_In, Tier_eqb_eq. tauto. Qed.

Lemma inTier_cons T a l :
  inTier T (a :: l) = if Tier_eqb (tierOf a) T then a :: inTier T l else inTier T l.
Proof. reflexivity. Qed.

(** The [forEach] fills each array with the transactions of its tier, in
    the order of the list. *)
Lemma fold_push l : forall b,
  signB (fold_left push l b) = signB b ++ inTier SignTier l /\
  errorB (fold_left push l b) = errorB b ++ inTier ErrorTier l /\
  successB (fold_left push l b) = successB b ++ inTier SuccessTier l /\
  submittedB (fold_left push l b) = submittedB b ++ inTier SubmittedTier l.
Proof.
  induction l as [|a l IH]; intros b.
  - simpl. rewrite !app_nil_r. auto.
  - cbn [fold_left]. destruct (IH (push b a)) as (H1 & H2 & H3 & H4).
    rewrite H1, H2, H3, H4. rewrite !inTier_cons. unfold push.
    destruct (tierOf a); cbn; rewrite <- ?app_assoc; auto.
Qed.

Lemma buckets l :
  let b := fold_left push l emptyBuckets in
  signB b = inTier SignTier l /\ errorB b = inTier ErrorTier l /\
  successB b = inTier SuccessTier l /\ submittedB b = inTier SubmittedTier l.
Proof. exact (fold_push l emptyBuckets). Qed.

Lemma existsb_eqb_In s l : existsb (String.eqb s) l = true -> In s l.
Proof.
  intros H. apply existsb_exists in H. destruct H as (x & Hx & He).
  apply String.eqb_eq in He. subst x. exact Hx.
Qed.

Lemma tierOfStatus_pending s :
  tierOfStatus s = SignTier \/ tierOfStatus s = SubmittedTier ->
  In s ["initialized"; "WaitingForApproval"; "pending"; "Propagating";
        "WaitingForConfirmation"].
Proof.
  unfold tierOfStatus.
  destruct (existsb (String.eqb s) ["initialized"; "WaitingForApproval"]) eqn:H1.
  - intros _. apply existsb_eqb_In in H1. simpl in *. tauto.
  - destruct (existsb (String.eqb s)
                ["pending"; "Propagating"; "WaitingForConfirmation"]) eqn:H2.
    + intros _. apply existsb_eqb_In in H2. simpl in *. tauto.
    + repeat match goal with
             | |- context [if ?b then _ else _] => destruct b
             end; intros [H | H]; discriminate.
Qed.

(** Transactions awaiting a signature and submitted transactions are not
    done. *)
Lemma pending_not_done t :
  consistent t -> tierOf t = SignTier \/ tierOf t = SubmittedTier ->
  isTxDone t = false.
Proof.
  unfold consistent, tierOf, statusOf, isTxDone, isDone.
  destruct (kind t) as [st raw|st raw|st raw|st raw].
  - intros <-. destruct (txStatus raw); intros [H | H];
      solve [reflexivity | discriminate H].
  - intros _ H. apply tierOfStatus_pending in H. simpl in H.
    repeat (destruct H as [<- | H]; [reflexivity|]). destruct H.
  - intros _ H. apply tierOfStatus_pending in H. simpl in H.
    repeat (destruct H as [<- | H]; [reflexivity|]). destruct H.
  - intros _ H. apply tierOfStatus_pending in H. simpl in H.
    repeat (destruct H as [<- | H]; [reflexivity|]). destruct H.
Qed.

Lemma allTransactions_consistent transactions onrampOrders t :
  In t (allTransactions transactions onrampOrders) -> consistent t.
Proof.
  unfold allTransactions. rewrite sort_In, !in_app_iff, !in_map_iff.
  intros [H | [H | [H | H]]]; destruct H as (x & <- & _); exact eq_refl || exact I.
Qed.

Lemma allTransactions_sorted transactions onrampOrders :
  StronglySorted before (allTransactions transactions onrampOrders).
Proof. apply sort_sorted. Qed.

(** The head of a tier of the sorted list is before every member of the
    tier. *)
Lemma tier_head_first T transactions onrampOrders t rest :
  inTier T (allTransactions transactions onrampOrders) = t :: rest ->
  forall u, In u (t :: rest) -> before t u.
Proof.
  intros Heq u Hu.
  pose proof (filter_sorted (fun x => Tier_eqb (tierOf x) T) _
                (allTransactions_sorted transactions onrampOrders)) as Hs.
  fold (inTier T (allTransactions transactions onrampOrders)) in Hs.
  rewrite Heq in Hs. inversion Hs as [|? ? _ Hall]; subst.
  destruct Hu as [<- | Hu]; [apply staysBefore_refl|].
  rewrite Forall_forall in Hall. apply Hall. exact Hu.
Qed.

Lemma pending_tier_latest T transactions onrampOrders t rest :
  T = SignTier \/ T = SubmittedTier ->
  inTier T (allTransactions transactions onrampOrders) = t :: rest ->
  forall u, In u (inTier T (allTransactions transactions onrampOrders)) ->
            lastChange u <= lastChange t.
Proof.
  intros HT Heq u Hu.
  assert (Hdone : forall x,
             In x (inTier T (allTransactions transactions onrampOrders)) ->
             isTxDone x = false).
  { intros x Hx. apply inTier_In in Hx. destruct Hx as [Hx Htier].
    apply pending_not_done.
    - eapply allTransactions_consistent. exact Hx.
    - destruct HT; subst T; auto. }
  pose proof (Hdone u Hu) as Hdu.
  assert (Hdt : isTxDone t = false) by (apply Hdone; rewrite Heq; left; reflexivity).
  rewrite Heq in Hu.
  pose proof (tier_head_first T _ _ t rest Heq u Hu) as Hb.
  apply staysBefore_meaning in Hb. apply Hb. congruence.
Qed.

(** *** The timed loops *)

Lemma within_not_past now t : withinWindow now t = true -> pastWindow now t = false.
Proof.
  unfold withinWindow, pastWindow. intros H.
  apply Z.ltb_lt in H. apply Z.ltb_ge. lia.
Qed.

Lemma loop_keeps now l : forall n,
  (forall u, In u l -> pastWindow now u = false) ->
  fold_left (timedStep now) l (Some n) = Some n.
Proof.
  induction l as [|a l IH]; intros n H; [reflexivity|].
  cbn [fold_left timedStep]. rewrite (H a (or_introl eq_refl)).
  apply IH. intros u Hu. apply H. right. exact Hu.
Qed.

Lemma loop_skips now l :
  (forall u, In u l -> withinWindow now u = false) ->
  fold_left (timedStep now) l None = None.
Proof.
  induction l as [|a l IH]; intros H; [reflexivity|].
  cbn [fold_left timedStep]. rewrite (H a (or_introl eq_refl)).
  apply IH. intros u Hu. apply H. right. exact Hu.
Qed.

Lemma loop_selects now pre t post :
  (forall u, In u pre -> withinWindow now u = false) ->
  withinWindow now t = true ->
  (forall u, In u post -> pastWindow now u = false) ->
  fold_left (timedStep now) (pre ++ t :: post) None
    = Some {| tx := t; withDescription := true |}.
Proof.
  intros Hpre Ht Hpost. rewrite fold_left_app, (loop_skips now pre Hpre).
  cbn [fold_left timedStep]. rewrite Ht. apply loop_keeps. exact Hpost.
Qed.

(** Whatever a loop selects is one of its transactions, within its
    window. *)
Lemma loop_selection now l : forall o n,
  fold_left (timedStep now) l o = Some n ->
  o = Some n \/ (In (tx n) l /\ withinWindow now (tx n) = true).
Proof.
  induction l as [|a l IH]; intros o n H; [left; exact H|].
  cbn [fold_left] in H. apply IH in H. destruct H as [H | [H1 H2]].
  - destruct o as [m|]; simpl in H.
    + destruct (pastWindow now a); [discriminate | auto].
    + destruct (withinWindow now a) eqn:Ha; [|discriminate].
      injection H as <-. right. simpl. auto.
  - right. simpl. auto.
Qed.

(** *** The selection *)

Lemma loop_guard now (l : list TxMgrTransaction) n :
  (if isNone n && (0 <? Z.of_nat (List.length l))
   then fold_left (timedStep now) l n else n)
  = match n with
    | None => fold_left (timedStep now) l None
    | Some _ => n
    end.
Proof. destruct n, l; reflexivity. Qed.

(** The selection of [filterTransactions], tier after tier. *)
Lemma selected_unfold now l :
  selected (filterTransactions now l) =
  match inTier SignTier l with
  | t :: _ => Some t
  | [] =>
      match fold_left (timedStep now) (inTier ErrorTier l) None with
      | Some n => Some (tx n)
      | None =>
          match fold_left (timedStep now) (inTier SuccessTier l) None with
          | Some n => Some (tx n)
          | None =>
              match inTier SubmittedTier l with
              | t :: _ => Some t
              | [] => None
              end
          end
      end
  end.
Proof.
  unfold selected, filterTransactions. cbv zeta.
  destruct (buckets l) as (H1 & H2 & H3 & H4). cbv zeta in H1, H2, H3, H4.
  cbn [notificationTransaction]. rewrite H1, H2, H3, H4, !loop_guard.
  destruct (inTier SignTier l) as [|t ?]; [|reflexivity].
  destruct (fold_left (timedStep now) (inTier ErrorTier l) None); [reflexivity|].
  destruct (fold_left (timedStep now) (inTier SuccessTier l) None); [reflexivity|].
  destruct (inTier SubmittedTier l); reflexivity.
Qed.

Lemma first_within_is_first T now transactions onrampOrders pre t post :
  inTier T (allTransactions transactions onrampOrders) = pre ++ t :: post ->
  (forall u, In u pre -> withinWindow now u = false) ->
  forall u, In u (inTier T (allTransactions transactions onrampOrders)) ->
            withinWindow now u = true ->
            (isTxDone t = true -> isTxDone u = true) /\
            (isTxDone u = isTxDone t -> lastChange u <= lastChange t).
Proof.
  intros Heq Hpre u Hu Hw. apply staysBefore_meaning.
  pose proof (filter_sorted (fun x => Tier_eqb (tierOf x) T) _
                (allTransactions_sorted transactions onrampOrders)) as Hs.
  fold (inTier T (allTransactions transactions onrampOrders)) in Hs.
  rewrite Heq in Hs, Hu. apply sorted_after_prefix in Hs.
  apply in_app_or in Hu. destruct Hu as [Hu | [<- | Hu]].
  - rewrite (Hpre u Hu) in Hw. discriminate.
  - apply staysBefore_refl.
  - rewrite Forall_forall in Hs. apply Hs. exact Hu.
Qed.

(** X18.  Where the loops take nothing back, the notification follows the
    order of the tiers.  It is chosen from [allTransactions], which is
    sorted with the unfinished transactions first and, within the same
    done-status, the latest [lastChange] first.
    - A transaction awaiting signature, if there is one, is selected: the
      one with the latest [lastChange].
    - Otherwise the first error in the list that is within 10 seconds of
      now is selected, if no error after it in the list is past its 10
      seconds; among the errors within their window it is first in the
      order of the list (unfinished before finished, then latest).
    - Otherwise, when no error is within its window, the same holds of the
      successes.
    - Otherwise, when no error and no success is within its window, the
      submitted transaction with the latest [lastChange] is selected, and
      nothing if there is none.
    - An error or success that is not within its 10 seconds is never
      selected; with a single expired error and nothing else the
      selection is empty. *)
Theorem notification_priority_unless_retracted
    (now : Z) (transactions : list TxState) (onrampOrders : list OnrampOrder) :
  let all := allTransactions transactions onrampOrders in
  let sel := selected (createTransactionManager now transactions onrampOrders) in
  let noneWithin T := forall u, In u (inTier T all) -> withinWindow now u = false in
  let latest T t := forall u, In u (inTier T all) -> lastChange u <= lastChange t in
  let firstWithin T t :=
    forall u, In u (inTier T all) -> withinWindow now u = true ->
              (isTxDone t = true -> isTxDone u = true) /\
              (isTxDone u = isTxDone t -> lastChange u <= lastChange t) in
  let chosenIn T pre t post :=
    inTier T all = pre ++ t :: post /\
    (forall u, In u pre -> withinWindow now u = false) /\
    withinWindow now t = true /\
    (forall u, In u post -> pastWindow now u = false) in
  (forall t rest, inTier SignTier all = t :: rest ->
     sel = Some t /\ latest SignTier t) /\
  (inTier SignTier all = [] ->
   forall pre t post, chosenIn ErrorTier pre t post ->
     sel = Some t /\ firstWithin ErrorTier t) /\
  (inTier SignTier all = [] -> noneWithin ErrorTier ->
   forall pre t post, chosenIn SuccessTier pre t post ->
     sel = Some t /\ firstWithin SuccessTier t) /\
  (inTier SignTier all = [] -> noneWithin ErrorTier -> noneWithin SuccessTier ->
   forall t rest, inTier SubmittedTier all = t :: rest ->
     sel = Some t /\ latest SubmittedTier t) /\
  (inTier SignTier all = [] -> noneWithin ErrorTier -> noneWithin SuccessTier ->
   inTier SubmittedTier all = [] -> sel = None) /\
  (forall t, sel = Some t -> tierOf t = ErrorTier \/ tierOf t = SuccessTier ->
     withinWindow now t = true) /\
  (forall raw, transactions = [raw] -> onrampOrders = [] ->
     tierOf (txState2Transaction raw) = ErrorTier ->
     withinWindow now (txState2Transaction raw) = false -> sel = None).
Proof.
  cbv zeta. unfold createTransactionManager. rewrite selected_unfold.
  set (all := allTransactions transactions onrampOrders).
  refine (conj _ (conj _ (conj _ (conj _ (conj _ (conj _ _)))))).
  - intros t rest Heq. split.
    + rewrite Heq. reflexivity.
    + apply (pending_tier_latest SignTier _ _ t rest); auto.
  - intros Hsign pre t post (Heq & Hpre & Ht & Hpost). split.
    + rewrite Hsign, Heq, (loop_selects now pre t post Hpre Ht Hpost). reflexivity.
    + eapply first_within_is_first; eassumption.
  - intros Hsign Herr pre t post (Heq & Hpre & Ht & Hpost). split.
    + rewrite Hsign, (loop_skips now _ Herr), Heq,
        (loop_selects now pre t post Hpre Ht Hpost). reflexivity.
    + eapply first_within_is_first; eassumption.
  - intros Hsign Herr Hsucc t rest Heq. split.
    + rewrite Hsign, (loop_skips now _ Herr), (loop_skips now _ Hsucc), Heq.
      reflexivity.
    + apply (pending_tier_latest SubmittedTier _ _ t rest); auto.
  - intros Hsign Herr Hsucc Hsub.
    rewrite Hsign, (loop_skips now _ Herr), (loop_skips now _ Hsucc), Hsub.
    reflexivity.
  - intros t Hsel Htier.
    destruct (inTier SignTier all) as [|t1 r1] eqn:Hsign.
    + destruct (fold_left (timedStep now) (inTier ErrorTier all) None)
        as [n|] eqn:Herr.
      * injection Hsel as <-. apply loop_selection in Herr.
        destruct Herr as [Herr | [_ Hw]]; [discriminate | exact Hw].
      * destruct (fold_left (timedStep now) (inTier SuccessTier all) None)
          as [n|] eqn:Hsucc.
        -- injection Hsel as <-. apply loop_selection in Hsucc.
           destruct Hsucc as [Hsucc | [_ Hw]]; [discriminate | exact Hw].
        -- destruct (inTier SubmittedTier all) as [|t2 r2] eqn:Hsub;
             [discriminate|].
           injection Hsel as <-.
           assert (Hin : In t2 (inTier SubmittedTier all))
             by (rewrite Hsub; left; reflexivity).
           apply inTier_In in Hin. destruct Hin as [_ Hin].
           destruct Htier; congruence.
    + injection Hsel as <-.
      assert (Hin : In t1 (inTier SignTier all))
        by (rewrite Hsign; left; reflexivity).
      apply inTier_In in Hin. destruct Hin as [_ Hin].
      destruct Htier; congruence.
  - intros raw -> -> Htier Hw. subst all. unfold allTransactions.
    cbn [filter map app sort fold_right insertSorted].
    rewrite !inTier_cons, Htier. cbn [Tier_eqb inTier filter fold_left timedStep].
    rewrite Hw. reflexivity.
Qed.

Lemma notification_priority_unless_retracted_witness :
  selected (createTransactionManager sampleNow
              [failureAt 1 5000; propagatingAt 2 1000] [])
    = Some (txState2Transaction (failureAt 1 5000)) /\
  selected (createTransactionManager sampleNow [failureAt 1 11000] []) = None.
Proof.
  split.
  - destruct (notification_priority_unless_retracted sampleNow
                [failureAt 1 5000; propagatingAt 2 1000] [])
      as (_ & H & _).
    apply (H eq_refl [] (txState2Transaction (failureAt 1 5000)) []).
    refine (conj eq_refl (conj _ (conj eq_refl _))); intros u [].
  - destruct (notification_priority_unless_retracted sampleNow [failureAt 1 11000] [])
      as (_ & _ & _ & _ & _ & _ & H).
    apply (H (failureAt 1 11000)); reflexivity.
Defined.

(** C6, at the inputs where the code departs from it.
    - Priority: a failure 5 seconds ago, a failure 60 seconds ago and a
      transaction propagating since 1 second.  The loop over the errors
      selects the recent failure and then, at the expired one, its
      [else if] takes the selection back; the submitted transaction is
      shown although an error within its 10 seconds is there.
    - Tie-break: a Latamex order rejected 8 seconds ago and a Wyre order
      that failed 2 seconds ago, both errors within their 10 seconds.
      ['rejected'] is not done for [isTxDone], so the sort puts the
      rejected order first and it is selected although the failed order
      has the later [lastChange]. *)
Theorem C6_recent_error_not_shown :
  (let recent := txState2Transaction (failureAt 1 5000) in
   let expired := txState2Transaction (failureAt 2 60000) in
   let submitted := txState2Transaction (propagatingAt 3 1000) in
   tierOf recent = ErrorTier /\ withinWindow sampleNow recent = true /\
   tierOf expired = ErrorTier /\ pastWindow sampleNow expired = true /\
   tierOf submitted = SubmittedTier /\
   allTransactions [failureAt 1 5000; failureAt 2 60000; propagatingAt 3 1000] []
     = [submitted; recent; expired] /\
   selected (createTransactionManager sampleNow
               [failureAt 1 5000; failureAt 2 60000; propagatingAt 3 1000] [])
     = Some submitted) /\
  (let older := latamexOrder2Transaction orderRejected in
   let later := wyreOrder2Transaction orderFailed in
   tierOf older = ErrorTier /\ tierOf later = ErrorTier /\
   withinWindow sampleNow older = true /\ withinWindow sampleNow later = true /\
   lastChange older < lastChange later /\
   isTxDone older = false /\ isTxDone later = true /\
   allTransactions [] [orderFailed; orderRejected] = [older; later] /\
   selected (createTransactionManager sampleNow [] [orderFailed; orderRejected])
     = Some older).
Proof. cbv zeta. repeat split. Qed.

End TransactionsSpec.

(** ** Order and sums of finite numbers

    At a common scale the finite numbers compare and add as integers. *)
Module BigNumberOrder.

Import BigNumber BigNumberFacts Scale.

Lemma pow10_Z k : Z.of_N (pow10 k) = 10 ^ Z.max 0 k.
Proof.
  unfold pow10. apply Z2N.id. apply Z.pow_nonneg. lia.
Qed.

Lemma pow10_split a b : 0 <= a -> 0 <= b -> 10 ^ (a + b) = 10 ^ a * 10 ^ b.
Proof. intros. apply Z.pow_add_r; assumption. Qed.

Lemma pow10_gt0 a : 0 <= a -> 0 < 10 ^ a.
Proof. intros. apply Z.pow_pos_nonneg; lia. Qed.

Lemma toZ_scaled s c e k :
  k <= e -> toZ s (c * pow10 (e - k)) = scaled k (Finite s c e).
Proof.
  intros H. unfold toZ, scaled, sgn.
  rewrite N2Z.inj_mul, pow10_Z, Z.max_r by lia.
  destruct s; lia.
Qed.

Lemma rescale c e k m :
  k <= m -> m <= e ->
  Z.of_N c * 10 ^ (e - k) = Z.of_N c * 10 ^ (e - m) * 10 ^ (m - k).
Proof.
  intros. replace (e - k) with ((e - m) + (m - k)) by lia.
  rewrite pow10_split by lia. ring.
Qed.

Lemma cmp_mag_scaled c1 e1 c2 e2 k :
  k <= e1 -> k <= e2 ->
  cmp_mag c1 e1 c2 e2 = (Z.of_N c1 * 10 ^ (e1 - k) ?= Z.of_N c2 * 10 ^ (e2 - k)).
Proof.
  intros H1 H2. unfold cmp_mag. set (m := Z.min e1 e2).
  rewrite <- N2Z.inj_compare, !N2Z.inj_mul, !pow10_Z, !Z.max_r by lia.
  rewrite (rescale c1 e1 k m), (rescale c2 e2 k m) by lia.
  apply Zmult_compare_compat_r.
  apply Z.lt_gt, pow10_gt0. lia.
Qed.

Lemma coefficient_sign c e k :
  k <= e -> (c =? 0)%N = false -> 0 < Z.of_N c * 10 ^ (e - k).
Proof.
  intros H Hc. apply N.eqb_neq in Hc.
  apply Z.mul_pos_pos; [lia | apply pow10_gt0; lia].
Qed.

(** [compare], on finite numbers, is the comparison of the integers they
    are at a common scale. *)
Lemma compare_scaled x y k :
  fits k x -> fits k y -> compare x y = Some (scaled k x ?= scaled k y).
Proof.
  destruct x as [|s1|s1 c1 e1], y as [|s2|s2 c2 e2];
    unfold fits, scaled, compare; try tauto.
  intros H1 H2.
  destruct (c1 =? 0)%N eqn:Hc1.
  - apply N.eqb_eq in Hc1. subst c1. rewrite Z.mul_0_l, Z.mul_0_r.
    destruct (c2 =? 0)%N eqn:Hc2.
    + apply N.eqb_eq in Hc2. subst c2. rewrite Z.mul_0_l, Z.mul_0_r. reflexivity.
    + destruct H2 as [H2 | H2]; [subst c2; discriminate|].
      pose proof (coefficient_sign c2 e2 k H2 Hc2).
      set (B := Z.of_N c2 * 10 ^ (e2 - k)) in *.
      f_equal. symmetry.
      destruct s2; unfold signed, sgn, CompOpp;
        [apply Z.compare_lt_iff | apply Z.compare_gt_iff]; lia.
  - destruct H1 as [H1 | H1]; [subst c1; discriminate|].
    pose proof (coefficient_sign c1 e1 k H1 Hc1).
    destruct (c2 =? 0)%N eqn:Hc2.
    + apply N.eqb_eq in Hc2. subst c2. rewrite Z.mul_0_l, Z.mul_0_r.
      set (A := Z.of_N c1 * 10 ^ (e1 - k)) in *.
      f_equal. symmetry.
      destruct s1; unfold signed, sgn, CompOpp;
        [apply Z.compare_gt_iff | apply Z.compare_lt_iff]; lia.
    + destruct H2 as [H2 | H2]; [subst c2; discriminate|].
      pose proof (coefficient_sign c2 e2 k H2 Hc2).
      rewrite (cmp_mag_scaled c1 e1 c2 e2 k) by assumption.
      set (A := Z.of_N c1 * 10 ^ (e1 - k)) in *.
      set (B := Z.of_N c2 * 10 ^ (e2 - k)) in *.
      destruct s1, s2; unfold Sign_eqb, signed, sgn; f_equal.
      * f_equal; lia.
      * symmetry. apply Z.compare_gt_iff. lia.
      * symmetry. apply Z.compare_lt_iff. lia.
      * rewrite <- Z.compare_antisym, <- Z.compare_opp. f_equal; lia.
Qed.

Lemma strip_value fuel : forall c e c' e',
  strip fuel c e = (c', e') ->
  e <= e' /\ Z.of_N c' * 10 ^ (e' - e) = Z.of_N c.
Proof.
  induction fuel as [|fuel IH]; intros c e c' e' H; simpl in H.
  - injection H as <- <-. rewrite Z.sub_diag. simpl. lia.
  - destruct (c mod 10 =? 0)%N eqn:Hm.
    + apply IH in H. destruct H as [Hle Hv]. split; [lia|].
      replace (e' - e) with ((e' - (e + 1)) + 1) by lia.
      rewrite pow10_split by lia. rewrite Z.mul_assoc, Hv.
      apply N.eqb_eq in Hm.
      rewrite (N.div_mod c 10) at 2 by discriminate. rewrite Hm.
      rewrite N.add_0_r, N2Z.inj_mul, Z.pow_1_r. change (Z.of_N 10) with 10. lia.
    + injection H as <- <-. rewrite Z.sub_diag. simpl. lia.
Qed.

(** [normalise] keeps the sign and the value. *)
Lemma normalise_value s c e k :
  k <= 0 -> k <= e ->
  exists c' e', normalise s c e = Finite s c' e' /\ k <= e' /\
                scaled k (Finite s c' e') = scaled k (Finite s c e).
Proof.
  intros H0 Hk. unfold normalise. destruct (c =? 0)%N eqn:Hc.
  - apply N.eqb_eq in Hc. subst c. exists 0%N, 0.
    refine (conj eq_refl (conj H0 _)).
    unfold scaled. rewrite !Z.mul_0_l. reflexivity.
  - destruct (strip (N.to_nat (N.size c)) c e) as [c' e'] eqn:Hs.
    apply strip_value in Hs. destruct Hs as [Hle Hv].
    exists c', e'. refine (conj eq_refl (conj _ _)); [lia|].
    unfold scaled. f_equal.
    rewrite (rescale c' e' k e) by lia. rewrite Hv. reflexivity.
Qed.

Lemma above_fits k x : above k x -> fits k x.
Proof. destruct x; simpl; auto. Qed.

Lemma scaled_rescale s c e k m :
  k <= m -> m <= e ->
  scaled k (Finite s c e) = scaled m (Finite s c e) * 10 ^ (m - k).
Proof.
  intros. unfold scaled. rewrite (rescale c e k m) by assumption. ring.
Qed.

(** A sum of finite numbers is finite and is the sum of the integers. *)
Lemma plus_scaled x y k :
  k <= 0 -> above k x -> above k y ->
  above k (plus x y) /\ scaled k (plus x y) = scaled k x + scaled k y.
Proof.
  destruct x as [|s1|s1 c1 e1], y as [|s2|s2 c2 e2];
    unfold above at 1 2; try tauto.
  intros H0 H1 H2. unfold plus. set (m := Z.min e1 e2).
  assert (Hm1 : m <= e1) by (subst m; lia).
  assert (Hm2 : m <= e2) by (subst m; lia).
  assert (Hkm : k <= m) by (subst m; lia).
  rewrite !toZ_scaled by assumption.
  rewrite (scaled_rescale s1 c1 e1 k m), (scaled_rescale s2 c2 e2 k m)
    by assumption.
  set (z := scaled m (Finite s1 c1 e1) + scaled m (Finite s2 c2 e2)).
  rewrite <- Z.mul_add_distr_r. fold z.
  destruct (z =? 0) eqn:Hz.
  - apply Z.eqb_eq in Hz. rewrite Hz. split; [exact H0|].
    unfold scaled. rewrite !Z.mul_0_l, Z.mul_0_r. reflexivity.
  - apply Z.eqb_neq in Hz.
    destruct (normalise_value (if z <? 0 then Neg else Pos) (Z.abs_N z) m k H0 Hkm)
      as (c' & e' & -> & Hle & Hv).
    split; [exact Hle|]. rewrite Hv.
    rewrite (scaled_rescale _ _ m k m) by lia. f_equal.
    unfold scaled. rewrite Z.sub_diag, Z.pow_0_r, Z.mul_1_r, N2Z.inj_abs_N.
    destruct (Z.ltb_spec z 0); unfold sgn; lia.
Qed.

Lemma negated_scaled x k : scaled k (negated x) = - scaled k x.
Proof.
  destruct x as [|s|s c e]; simpl; try reflexivity.
  destruct s; unfold sgn, sign_opp; lia.
Qed.

Lemma negated_above x k : above k (negated x) <-> above k x.
Proof. destruct x; simpl; tauto. Qed.

Lemma minus_scaled x y k :
  k <= 0 -> above k x -> above k y ->
  above k (minus x y) /\ scaled k (minus x y) = scaled k x - scaled k y.
Proof.
  intros H0 Hx Hy. unfold minus.
  destruct (plus_scaled x (negated y) k H0 Hx (proj2 (negated_above y k) Hy))
    as [Ha Hs].
  split; [exact Ha|]. rewrite Hs, negated_scaled. lia.
Qed.

(** A scale below the exponents of the given numbers, and not above 0. *)
Lemma common_scale2 x y :
  isFinite x = true -> isFinite y = true ->
  exists k, k <= 0 /\ above k x /\ above k y.
Proof.
  destruct x as [|s1|s1 c1 e1], y as [|s2|s2 c2 e2]; try discriminate.
  intros _ _. exists (Z.min 0 (Z.min e1 e2)). simpl. lia.
Qed.

Lemma gte_scaled x y k :
  fits k x -> fits k y -> (gte x y = true <-> scaled k y <= scaled k x).
Proof.
  intros Hx Hy. unfold gte. rewrite (compare_scaled x y k Hx Hy).
  destruct (Z.compare_spec (scaled k x) (scaled k y)); split;
    intros; try lia; try discriminate; reflexivity.
Qed.

Lemma lte_scaled x y k :
  fits k x -> fits k y -> (lte x y = true <-> scaled k x <= scaled k y).
Proof.
  intros Hx Hy. unfold lte. rewrite (compare_scaled x y k Hx Hy).
  destruct (Z.compare_spec (scaled k x) (scaled k y)); split;
    intros; try lia; try discriminate; reflexivity.
Qed.

Lemma gte_lte x y : gte x y = lte y x.
Proof.
  unfold gte, lte. rewrite (compare_antisym x y).
  destruct (compare x y) as [[| |]|]; reflexivity.
Qed.

(** Taking away a number that is not negative does not raise, and adding
    it does not lower. *)
Lemma minus_lte x y :
  isFinite x = true -> isFinite y = true -> gte y ManageVault.zero = true ->
  lte (minus x y) x = true.
Proof.
  intros Fx Fy Hy.
  destruct (common_scale2 x y Fx Fy) as (k & H0 & Ax & Ay).
  destruct (minus_scaled x y k H0 Ax Ay) as [Am Hm].
  apply (lte_scaled _ _ k (above_fits _ _ Am) (above_fits _ _ Ax)).
  apply (gte_scaled y ManageVault.zero k (above_fits _ _ Ay)) in Hy;
    [|simpl; auto].
  change (scaled k ManageVault.zero) with (1 * (0 * 10 ^ (0 - k))) in Hy.
  lia.
Qed.

Lemma plus_gte x y :
  isFinite x = true -> isFinite y = true -> gte y ManageVault.zero = true ->
  gte (plus x y) x = true.
Proof.
  intros Fx Fy Hy.
  destruct (common_scale2 x y Fx Fy) as (k & H0 & Ax & Ay).
  destruct (plus_scaled x y k H0 Ax Ay) as [Am Hm].
  apply (gte_scaled _ _ k (above_fits _ _ Am) (above_fits _ _ Ax)).
  apply (gte_scaled y ManageVault.zero k (above_fits _ _ Ay)) in Hy;
    [|simpl; auto].
  change (scaled k ManageVault.zero) with (1 * (0 * 10 ^ (0 - k))) in Hy.
  lia.
Qed.

(** Adding or taking away a zero keeps the value. *)
Lemma plus_zero_lte x y :
  isFinite x = true -> isZero y = true -> lte (plus x y) x = true.
Proof.
  intros Fx Zy.
  assert (Fy : isFinite y = true) by (destruct y; try discriminate; reflexivity).
  destruct (common_scale2 x y Fx Fy) as (k & H0 & Ax & Ay).
  destruct (plus_scaled x y k H0 Ax Ay) as [Am Hm].
  apply (lte_scaled _ _ k (above_fits _ _ Am) (above_fits _ _ Ax)).
  rewrite Hm. destruct y as [|s|s c e]; try discriminate.
  simpl in Zy. apply N.eqb_eq in Zy. subst c.
  unfold scaled at 2. rewrite Z.mul_0_l, Z.mul_0_r. lia.
Qed.

Lemma lte_trans x y z :
  isFinite x = true -> isFinite y = true -> isFinite z = true ->
  lte x y = true -> lte y z = true -> lte x z = true.
Proof.
  intros Fx Fy Fz Hxy Hyz.
  destruct x as [|s1|s1 c1 e1], y as [|s2|s2 c2 e2], z as [|s3|s3 c3 e3];
    try discriminate.
  set (k := Z.min e1 (Z.min e2 e3)).
  assert (K1 : fits k (Finite s1 c1 e1)) by (simpl; right; subst k; lia).
  assert (K2 : fits k (Finite s2 c2 e2)) by (simpl; right; subst k; lia).
  assert (K3 : fits k (Finite s3 c3 e3)) by (simpl; right; subst k; lia).
  apply (lte_scaled _ _ k K1 K2) in Hxy. apply (lte_scaled _ _ k K2 K3) in Hyz.
  apply (lte_scaled _ _ k K1 K3). lia.
Qed.

End BigNumberOrder.

(** ** Further properties of the manage-vault calculations *)
Module ManageVaultMore.

Import BigNumber BigNumberFacts BigNumberOrder ManageVault ManageVaultSpec.

Lemma gte_zero_lte x : gte x zero = true -> lte zero x = true.
Proof. intros H. rewrite <- gte_lte. exact H. Qed.

Lemma isPositive_not_NaN x : isPositive x = true -> isNaN x = false.
Proof. destruct x; simpl; congruence. Qed.

Lemma calculateDaiYieldFromCollateral_sign
    debt0 liq generate payback price collateral ilkAvail :
  gte (calculateDaiYieldFromCollateral debt0 liq generate payback price
         collateral ilkAvail) zero = true /\
  isNaN (calculateDaiYieldFromCollateral debt0 liq generate payback price
           collateral ilkAvail) = false.
Proof.
  assert (H : gte (calculateDaiYieldFromCollateral debt0 liq generate payback
                     price collateral ilkAvail) zero = true).
  { rewrite calculateDaiYieldFromCollateral_cases. cbv zeta.
    destruct (isPositive (minus (div (times collateral price) liq) debt0)) eqn:Hp;
      simpl; [|reflexivity].
    destruct (gt _ ilkAvail).
    - destruct (isPositive ilkAvail); [apply clampAtZero_nonneg | reflexivity].
    - apply isPositive_gte_zero. exact Hp. }
  split; [exact H | exact (proj1 (gte_not_NaN _ _ H))].
Qed.

(** X1.  The yield is zero, a clamped amount or a number of positive sign, so
    it is never negative and never [NaN], whatever the inputs. *)
Theorem daiYield_nonneg debt0 liq generate payback price collateral ilkAvail :
  gte (calculateDaiYieldFromCollateral debt0 liq generate payback price
         collateral ilkAvail) zero = true /\
  isNaN (calculateDaiYieldFromCollateral debt0 liq generate payback price
           collateral ilkAvail) = false.
Proof. apply calculateDaiYieldFromCollateral_sign. Qed.

(** The lesser of the two maximum generate amounts, as [BigNumber.minimum]
    picks it. *)
Lemma maxGenerateAmount_minimum (st : ManageVaultState) :
  let c := calculations (applyManageVaultCalculations st) in
  (maxGenerateAmount c = maxGenerateAmountAtCurrentPrice c \/
   maxGenerateAmount c = maxGenerateAmountAtNextPrice c) /\
  lte (maxGenerateAmount c) (maxGenerateAmountAtCurrentPrice c) = true /\
  lte (maxGenerateAmount c) (maxGenerateAmountAtNextPrice c) = true /\
  gte (maxGenerateAmount c) zero = true.
Proof.
  cbv zeta. unfold applyManageVaultCalculations.
  cbn [calculations maxGenerateAmount maxGenerateAmountAtCurrentPrice
       maxGenerateAmountAtNextPrice].
  unfold calculateMaxGenerateAmount.
  match goal with
  | |- context [minimum ?a ?b] =>
      destruct (calculateDaiYieldFromCollateral_sign
                  (plus (debt (vault st)) (debtOffset (vault st)))
                  (liquidationRatio (ilkData st)) None None
                  (currentCollateralPrice (priceInfo st))
                  (calculateAfterLockedCollateral (lockedCollateral (vault st))
                     (depositAmount st) None)
                  (ilkDebtAvailable (ilkData st))) as [Ga Na];
      destruct (calculateDaiYieldFromCollateral_sign
                  (plus (debt (vault st)) (debtOffset (vault st)))
                  (liquidationRatio (ilkData st)) None None
                  (nextCollateralPrice (priceInfo st))
                  (calculateAfterLockedCollateral (lockedCollateral (vault st))
                     (depositAmount st) None)
                  (ilkDebtAvailable (ilkData st))) as [Gb Nb];
      destruct (minimum_cases a b Na Nb) as (Hor & H1 & H2)
  end.
  refine (conj Hor (conj H1 (conj H2 _))).
  destruct Hor as [-> | ->]; assumption.
Qed.

(** X2.  [maxGenerateAmount] is the lesser of the amounts at the current and at
    the next price: one of the two, not above either, and not negative. *)
Theorem maxGenerateAmount_is_minimum (st : ManageVaultState) :
  let c := calculations (applyManageVaultCalculations st) in
  (maxGenerateAmount c = maxGenerateAmountAtCurrentPrice c \/
   maxGenerateAmount c = maxGenerateAmountAtNextPrice c) /\
  lte (maxGenerateAmount c) (maxGenerateAmountAtCurrentPrice c) = true /\
  lte (maxGenerateAmount c) (maxGenerateAmountAtNextPrice c) = true /\
  gte (maxGenerateAmount c) zero = true.
Proof. exact (maxGenerateAmount_minimum st). Qed.

Lemma capped_lte ilk :
  isPositive ilk = true ->
  lte (clampAtZero (minus (plus ilk zero) zero)) ilk = true.
Proof.
  intros Hp.
  destruct ilk as [|s|s c e]; try discriminate;
    destruct s; try discriminate; [reflexivity|].
  set (ilk := Finite Pos c e).
  assert (F1 : isFinite (plus ilk zero) = true) by (apply plus_isFinite; reflexivity).
  assert (F2 : isFinite (minus (plus ilk zero) zero) = true)
    by (apply minus_isFinite; [exact F1 | reflexivity]).
  unfold clampAtZero. destruct (gte (minus (plus ilk zero) zero) zero).
  - apply (lte_trans _ (plus ilk zero) ilk F2 F1 eq_refl).
    + apply minus_lte; [exact F1 | reflexivity | reflexivity].
    + apply plus_zero_lte; reflexivity.
  - apply gte_zero_lte, isPositive_gte_zero. reflexivity.
Qed.

Lemma maxGenerate_lte_ceiling dep d off l liq price ilk :
  gte ilk zero = true ->
  lte (calculateMaxGenerateAmount dep None d off l liq price ilk) ilk = true.
Proof.
  intros Hi. unfold calculateMaxGenerateAmount.
  rewrite calculateDaiYieldFromCollateral_cases. cbv zeta.
  match goal with
  | |- context [negb (isPositive ?y)] => set (daiYield := y)
  end.
  destruct (isPositive daiYield) eqn:Hp; simpl negb; cbv iota.
  - destruct (gt daiYield ilk) eqn:Hg.
    + destruct (isPositive ilk) eqn:Hpi.
      * apply capped_lte. exact Hpi.
      * apply gte_zero_lte. exact Hi.
    + apply not_gt_lte; [apply isPositive_not_NaN; exact Hp | | exact Hg].
      exact (proj1 (gte_not_NaN _ _ Hi)).
  - apply gte_zero_lte. exact Hi.
Qed.

(** X3.  With a debt ceiling that is not negative, none of the maximum generate
    amounts exceeds the room left under the ceiling, [ilkDebtAvailable]. *)
Theorem maxGenerateAmount_within_ceiling (st : ManageVaultState) :
  let c := calculations (applyManageVaultCalculations st) in
  gte (ilkDebtAvailable (ilkData st)) zero = true ->
  lte (maxGenerateAmountAtCurrentPrice c) (ilkDebtAvailable (ilkData st)) = true /\
  lte (maxGenerateAmountAtNextPrice c) (ilkDebtAvailable (ilkData st)) = true /\
  lte (maxGenerateAmount c) (ilkDebtAvailable (ilkData st)) = true.
Proof.
  cbv zeta. intros Hi.
  destruct (maxGenerateAmount_minimum st) as (Hor & _).
  cbv zeta in Hor. revert Hor.
  unfold applyManageVaultCalculations.
  cbn [calculations maxGenerateAmount maxGenerateAmountAtCurrentPrice
       maxGenerateAmountAtNextPrice].
  intros Hor.
  assert (Ha := maxGenerate_lte_ceiling (depositAmount st) (debt (vault st))
                  (debtOffset (vault st)) (lockedCollateral (vault st))
                  (liquidationRatio (ilkData st))
                  (currentCollateralPrice (priceInfo st)) _ Hi).
  assert (Hb := maxGenerate_lte_ceiling (depositAmount st) (debt (vault st))
                  (debtOffset (vault st)) (lockedCollateral (vault st))
                  (liquidationRatio (ilkData st))
                  (nextCollateralPrice (priceInfo st)) _ Hi).
  refine (conj Ha (conj Hb _)).
  destruct Hor as [-> | ->]; assumption.
Qed.

Lemma maxGenerateAmount_within_ceiling_witness :
  lte (maxGenerateAmount (calculations (applyManageVaultCalculations stCeilingReached)))
      (ilkDebtAvailable (ilkData stCeilingReached)) = true.
Proof.
  apply (maxGenerateAmount_within_ceiling stCeilingReached). reflexivity.
Defined.

(** X4.  [maxPaybackAmount] is the dai balance or the debt; when neither is
    [NaN] it is not above either of them, and with a [NaN] balance it is
    the debt. *)
Theorem maxPaybackAmount_is_lesser (st : ManageVaultState) :
  let c := calculations (applyManageVaultCalculations st) in
  let balance := daiBalance (balanceInfo st) in
  let owed := debt (vault st) in
  (maxPaybackAmount c = balance \/ maxPaybackAmount c = owed) /\
  (isNaN balance = true -> maxPaybackAmount c = owed) /\
  (isNaN balance = false -> isNaN owed = false ->
   lte (maxPaybackAmount c) balance = true /\
   lte (maxPaybackAmount c) owed = true).
Proof.
  cbv zeta. unfold applyManageVaultCalculations.
  cbn [calculations maxPaybackAmount].
  set (a := daiBalance (balanceInfo st)). set (b := debt (vault st)).
  refine (conj _ (conj _ _)).
  - destruct (lt a b); auto.
  - intros Ha. destruct a; try discriminate. reflexivity.
  - intros Ha Hb. unfold lt. destruct (compare a b) as [[| |]|] eqn:Hc.
    + split; [|apply lte_refl; exact Hb].
      unfold lte. rewrite (compare_antisym a b), Hc. reflexivity.
    + split; [apply lte_refl; exact Ha|]. unfold lte. rewrite Hc. reflexivity.
    + split; [|apply lte_refl; exact Hb].
      unfold lte. rewrite (compare_antisym a b), Hc. reflexivity.
    + destruct a, b; simpl in *; try discriminate;
        repeat match type of Hc with
               | context [if ?t then _ else _] => destruct t
               end; discriminate.
Qed.

Lemma maxPaybackAmount_is_lesser_witness :
  let c := calculations (applyManageVaultCalculations stCeilingReached) in
  lte (maxPaybackAmount c) (ofZ 100) = true /\
  lte (maxPaybackAmount c) (ofZ 60) = true.
Proof.
  destruct (maxPaybackAmount_is_lesser stCeilingReached) as (_ & _ & H).
  apply H; reflexivity.
Defined.

(** What is left of a collateral that is not negative, after a backing
    that is not negative, is not more than the collateral. *)
Lemma calculateAfterFreeCollateral_lte l b :
  gte l zero = true -> gte b zero = true ->
  lte (calculateAfterFreeCollateral l b) l = true.
Proof.
  intros Hl Hb. unfold calculateAfterFreeCollateral.
  destruct (gte (minus l b) zero) eqn:Hg; [|apply gte_zero_lte; exact Hl].
  destruct l as [|sl|sl cl el].
  - discriminate Hl.
  - destruct sl; [|discriminate Hl].
    destruct b as [|sb|sb cb eb].
    + discriminate Hb.
    + destruct sb; [discriminate Hg | discriminate Hb].
    + reflexivity.
  - destruct b as [|sb|sb cb eb].
    + discriminate Hb.
    + destruct sb; [discriminate Hg | discriminate Hb].
    + apply minus_lte; [reflexivity | reflexivity | exact Hb].
Qed.

(** X5.  With a locked collateral that is not negative and a liquidation ratio
    and prices that are finite and greater than zero, no maximum withdraw
    amount exceeds the locked collateral, and the projected free
    collateral does not exceed the projected locked collateral. *)
Theorem withdrawable_within_locked (st : ManageVaultState) :
  let c := calculations (applyManageVaultCalculations st) in
  let locked := lockedCollateral (vault st) in
  strictlyPositive (liquidationRatio (ilkData st)) = true ->
  strictlyPositive (currentCollateralPrice (priceInfo st)) = true ->
  strictlyPositive (nextCollateralPrice (priceInfo st)) = true ->
  (lte (afterFreeCollateral c) (afterLockedCollateral c) = true /\
   lte (afterFreeCollateralAtNextPrice c) (afterLockedCollateral c) = true) /\
  (gte locked zero = true ->
   lte (maxWithdrawAmountAtCurrentPrice c) locked = true /\
   lte (maxWithdrawAmountAtNextPrice c) locked = true /\
   lte (maxWithdrawAmount c) locked = true).
Proof.
  cbv zeta. intros Hliq Hcur Hnext.
  unfold applyManageVaultCalculations.
  cbn [calculations maxWithdrawAmount maxWithdrawAmountAtCurrentPrice
       maxWithdrawAmountAtNextPrice afterFreeCollateral
       afterFreeCollateralAtNextPrice afterLockedCollateral].
  match goal with
  | |- context [minimum ?a ?b] =>
      destruct (minimum_cases a b
                  (proj1 (gte_not_NaN _ _ (calculateAfterFreeCollateral_nonneg _ _)))
                  (proj1 (gte_not_NaN _ _ (calculateAfterFreeCollateral_nonneg _ _))))
        as (Hor & _ & _)
  end.
  split.
  - split; apply calculateAfterFreeCollateral_lte;
      solve [ apply calculateAfterLockedCollateral_nonneg
            | apply calculateAfterBackingCollateral_nonneg; assumption ].
  - intros Hl.
    assert (Ha : forall price, strictlyPositive price = true ->
              lte (calculateMaxWithdrawAmount (paybackAmount st)
                     (determineShouldPaybackAll (paybackAmount st)
                        (debt (vault st)) (debtOffset (vault st))
                        (daiBalance (balanceInfo st)))
                     (lockedCollateral (vault st)) (debt (vault st))
                     (debtOffset (vault st)) (liquidationRatio (ilkData st))
                     price) (lockedCollateral (vault st)) = true).
    { intros price Hp. unfold calculateMaxWithdrawAmount.
      apply calculateAfterFreeCollateral_lte; [exact Hl|].
      apply calculateAfterBackingCollateral_nonneg; assumption. }
    refine (conj (Ha _ Hcur) (conj (Ha _ Hnext) _)).
    destruct Hor as [-> | ->]; auto.
Qed.

Lemma withdrawable_within_locked_witness :
  let c := calculations (applyManageVaultCalculations stPaybackSome) in
  lte (afterFreeCollateral c) (afterLockedCollateral c) = true /\
  lte (maxWithdrawAmount c) (ofZ 200) = true.
Proof.
  destruct (withdrawable_within_locked stPaybackSome eq_refl eq_refl eq_refl)
    as [[H1 _] H2].
  split; [exact H1|]. apply H2. reflexivity.
Defined.

(** X6.  With nothing entered the projection is the position itself: locked
    collateral and debt that are not negative come back unchanged, and
    [shouldPaybackAll] is off. *)
Theorem nothing_entered_keeps_position (st : ManageVaultState) :
  let c := calculations (applyManageVaultCalculations st) in
  depositAmount st = None -> withdrawAmount st = None ->
  generateAmount st = None -> paybackAmount st = None ->
  shouldPaybackAll c = false /\
  (gte (lockedCollateral (vault st)) zero = true ->
   afterLockedCollateral c = lockedCollateral (vault st)) /\
  (gte (debt (vault st)) zero = true -> afterDebt c = debt (vault st)).
Proof.
  cbv zeta. intros Hd Hw Hg Hp. unfold applyManageVaultCalculations.
  cbn [calculations shouldPaybackAll afterLockedCollateral afterDebt].
  rewrite Hd, Hw, Hg, Hp.
  assert (Hs : determineShouldPaybackAll None (debt (vault st))
                 (debtOffset (vault st)) (daiBalance (balanceInfo st)) = false)
    by (unfold determineShouldPaybackAll; apply andb_false_r).
  rewrite Hs. refine (conj eq_refl (conj _ _)).
  - intros H. unfold calculateAfterLockedCollateral. rewrite H. reflexivity.
  - intros H. unfold calculateAfterDebt. rewrite H. reflexivity.
Qed.

Lemma nothing_entered_keeps_position_witness :
  let c := calculations (applyManageVaultCalculations stPlain) in
  shouldPaybackAll c = false /\
  afterLockedCollateral c = ofZ 200 /\ afterDebt c = ofZ 100.
Proof.
  destruct (nothing_entered_keeps_position stPlain eq_refl eq_refl eq_refl eq_refl)
    as (H1 & H2 & H3).
  refine (conj H1 (conj _ _)).
  - apply H2. reflexivity.
  - apply H3. reflexivity.
Defined.

(** X7.  A price of zero does not raise: when the projected debt passes
    [isPositive()] and its product with the liquidation ratio is greater
    than zero, the backing collateral at a current price of (positive)
    zero is [Infinity], and the free collateral is then zero. *)
Theorem zero_price_backing_is_infinite (st : ManageVaultState) :
  let c := calculations (applyManageVaultCalculations st) in
  let price := currentCollateralPrice (priceInfo st) in
  isZero price = true -> isPositive price = true ->
  isPositive (afterDebt c) = true ->
  gt (times (afterDebt c) (liquidationRatio (ilkData st))) zero = true ->
  afterBackingCollateral c = Infinity Pos /\ afterFreeCollateral c = zero.
Proof.
  cbv zeta. unfold applyManageVaultCalculations.
  cbn [calculations afterDebt afterLockedCollateral afterBackingCollateral
       afterFreeCollateral].
  intros Hz Hp Hd Hg.
  assert (Hb : calculateAfterBackingCollateral
                 (calculateAfterDebt
                    (determineShouldPaybackAll (paybackAmount st)
                       (debt (vault st)) (debtOffset (vault st))
                       (daiBalance (balanceInfo st)))
                    (generateAmount st) (paybackAmount st) (debt (vault st)))
                 (liquidationRatio (ilkData st))
                 (currentCollateralPrice (priceInfo st))
               = Infinity Pos).
  { unfold calculateAfterBackingCollateral. rewrite Hd. simpl negb. cbv iota.
    destruct (currentCollateralPrice (priceInfo st)) as [|sp|sp cp ep];
      try discriminate.
    destruct sp; [|discriminate]. unfold isZero in Hz.
    destruct (times _ _) as [|sv|sv cv ev]; try discriminate.
    - destruct sv; [reflexivity | discriminate].
    - unfold gt, compare, zero in Hg. unfold div. rewrite Hz.
      destruct (cv =? 0)%N; [discriminate|].
      destruct sv; [reflexivity | discriminate]. }
  rewrite Hb. split; [reflexivity|].
  pose proof (calculateAfterLockedCollateral_nonneg (lockedCollateral (vault st))
                (depositAmount st) (withdrawAmount st)) as Hl.
  destruct (calculateAfterLockedCollateral _ _ _) as [|sl|sl cl el];
    try discriminate; try reflexivity.
  destruct sl; reflexivity.
Qed.

Lemma zero_price_backing_is_infinite_witness :
  let c := calculations (applyManageVaultCalculations stZeroPrice) in
  afterBackingCollateral c = Infinity Pos /\ afterFreeCollateral c = zero.
Proof.
  apply (zero_price_backing_is_infinite stZeroPrice); reflexivity.
Defined.

Lemma gte_Infinity_zero s : gte (Infinity s) zero = true -> s = Pos.
Proof. destruct s; [reflexivity | discriminate]. Qed.

(** The clamped sum of two numbers that are not negative is not below the
    first. *)
Lemma clamped_plus_gte x y :
  gte x zero = true -> gte y zero = true ->
  gte (clampAtZero (plus x y)) x = true.
Proof.
  intros Hx Hy.
  destruct x as [|sx|sx cx ex]; [discriminate Hx | |];
    (destruct y as [|sy|sy cy ey]; [discriminate Hy | |]);
    try (apply gte_Infinity_zero in Hx; subst sx);
    try (apply gte_Infinity_zero in Hy; subst sy);
    try reflexivity.
  set (x := Finite sx cx ex) in *. set (y := Finite sy cy ey) in *.
  assert (Hp : gte (plus x y) x = true) by (apply plus_gte; auto).
  assert (Fp : isFinite (plus x y) = true) by (apply plus_isFinite; reflexivity).
  unfold clampAtZero. destruct (gte (plus x y) zero) eqn:Hg; [exact Hp|].
  rewrite gte_lte in Hg, Hp, Hx.
  rewrite (lte_trans zero x (plus x y) eq_refl eq_refl Fp Hx Hp) in Hg.
  discriminate.
Qed.

(** X8.  Entering an amount moves the projection the way the amount says, for
    a position and an amount that are not negative: a deposit does not
    lower the locked collateral and a withdrawal does not raise it;
    generating (when not all debt is paid back) does not lower the debt
    and a payback does not raise it. *)
Theorem amounts_move_the_projection (st : ManageVaultState) :
  let c := calculations (applyManageVaultCalculations st) in
  let locked := lockedCollateral (vault st) in
  let owed := debt (vault st) in
  (forall d, depositAmount st = Some d -> gte locked zero = true ->
     gte d zero = true -> gte (afterLockedCollateral c) locked = true) /\
  (forall w, depositAmount st = None -> withdrawAmount st = Some w ->
     gte locked zero = true -> gte w zero = true ->
     lte (afterLockedCollateral c) locked = true) /\
  (forall g, generateAmount st = Some g -> shouldPaybackAll c = false ->
     gte owed zero = true -> gte g zero = true ->
     gte (afterDebt c) owed = true) /\
  (forall p, generateAmount st = None -> paybackAmount st = Some p ->
     gte owed zero = true -> gte p zero = true ->
     lte (afterDebt c) owed = true).
Proof.
  cbv zeta. unfold applyManageVaultCalculations.
  cbn [calculations shouldPaybackAll afterLockedCollateral afterDebt].
  refine (conj _ (conj _ (conj _ _))).
  - intros d Hd Hl Hd0. rewrite Hd, calculateAfterLockedCollateral_clamp.
    apply clamped_plus_gte; assumption.
  - intros w Hd Hw Hl Hw0. rewrite Hd, Hw.
    apply (calculateAfterFreeCollateral_lte _ w Hl Hw0).
  - intros g Hg Hs Ho Hg0. rewrite Hs, Hg, calculateAfterDebt_clamp.
    apply clamped_plus_gte; assumption.
  - intros p Hg Hp Ho Hp0. rewrite Hg, Hp.
    destruct (determineShouldPaybackAll _ _ _ _).
    + apply gte_zero_lte. exact Ho.
    + apply (calculateAfterFreeCollateral_lte _ p Ho Hp0).
Qed.

Lemma amounts_move_the_projection_witness :
  gte (afterLockedCollateral
         (calculations (applyManageVaultCalculations stDepositNoDebt)))
      (ofZ 10) = true /\
  lte (afterLockedCollateral
         (calculations (applyManageVaultCalculations stWithdrawAll)))
      (ofZ 200) = true /\
  gte (afterDebt (calculations (applyManageVaultCalculations stBothDirections)))
      (ofZ 100) = true /\
  lte (afterDebt (calculations (applyManageVaultCalculations stPaybackSome)))
      (ofZ 100) = true.
Proof.
  refine (conj _ (conj _ (conj _ _))).
  - destruct (amounts_move_the_projection stDepositNoDebt) as (H & _).
    apply (H (ofZ 5)); reflexivity.
  - destruct (amounts_move_the_projection stWithdrawAll) as (_ & H & _).
    apply (H (ofZ 200)); reflexivity.
  - destruct (amounts_move_the_projection stBothDirections) as (_ & _ & H & _).
    apply (H (ofZ 20)); reflexivity.
  - destruct (amounts_move_the_projection stPaybackSome) as (_ & _ & _ & H).
    apply (H (ofZ 40)); reflexivity.
Defined.

End ManageVaultMore.

(** ** Further properties of the transaction manager *)
Module TransactionsMore.

Import Transactions TransactionLists TransactionsSpec.

Local Open Scope string_scope.
Local Open Scope Z_scope.
Local Open Scope list_scope.

(** *** The comparator and the sort *)

(** X9.  [compareTransactions] is a consistent comparator: a transaction
    compares 0 with itself, swapping the arguments flips the sign of the
    result, and "not after" is transitive. *)
Theorem compareTransactions_consistent (a b c : TxMgrTransaction) :
  compareTransactions a a = Returns 0 /\
  (exists n m, compareTransactions a b = Returns n /\
               compareTransactions b a = Returns m /\ Z.sgn m = - Z.sgn n) /\
  (forall n m, compareTransactions a b = Returns n ->
               compareTransactions b c = Returns m -> n <= 0 -> m <= 0 ->
               exists r, compareTransactions a c = Returns r /\ r <= 0).
Proof.
  refine (conj _ (conj _ _)).
  - unfold compareTransactions. rewrite Bool.eqb_reflx. f_equal. lia.
  - unfold compareTransactions.
    destruct (isTxDone a), (isTxDone b); simpl;
      eexists; eexists; (split; [reflexivity | split; [reflexivity | lia]]).
  - intros n m Hab Hbc Hn Hm.
    assert (Sab : staysBefore a b = true)
      by (unfold staysBefore; rewrite Hab; apply Z.leb_le; exact Hn).
    assert (Sbc : staysBefore b c = true)
      by (unfold staysBefore; rewrite Hbc; apply Z.leb_le; exact Hm).
    pose proof (staysBefore_trans a b c Sab Sbc) as Sac.
    unfold staysBefore in Sac.
    destruct (compareTransactions a c) as [r | msg] eqn:Hac.
    + exists r. split; [reflexivity | apply Z.leb_le; exact Sac].
    + exfalso. revert Hac. unfold compareTransactions.
      destruct (isTxDone a), (isTxDone c); discriminate.
Qed.

Lemma compareTransactions_consistent_witness :
  exists r,
    compareTransactions (txState2Transaction (propagatingAt 1 1000))
                        (txState2Transaction (failureAt 3 5000)) = Returns r /\
    r <= 0.
Proof.
  destruct (compareTransactions_consistent
              (txState2Transaction (propagatingAt 1 1000))
              (txState2Transaction (propagatingAt 2 2000))
              (txState2Transaction (failureAt 3 5000))) as (_ & _ & H).
  apply (H (-1000) (-1)); (reflexivity || lia).
Defined.

Lemma insertSorted_Permutation a l : Permutation (a :: l) (insertSorted a l).
Proof.
  induction l as [|b l IH]; simpl; [apply Permutation_refl|].
  destruct (staysBefore a b); [apply Permutation_refl|].
  eapply Permutation_trans; [apply perm_swap|].
  apply perm_skip. exact IH.
Qed.

Lemma sort_Permutation l : Permutation l (sort l).
Proof.
  induction l as [|a l IH]; simpl; [apply perm_nil|].
  eapply Permutation_trans; [apply perm_skip; exact IH|].
  apply insertSorted_Permutation.
Qed.

Lemma sorted_meaning l :
  StronglySorted before l -> StronglySorted unfinishedThenLatest l.
Proof.
  induction 1 as [|a l Hs IH Ha]; constructor; [exact IH|].
  eapply Forall_impl; [|exact Ha].
  intros b Hb. apply staysBefore_meaning. exact Hb.
Qed.

(** X10.  The sort loses and duplicates nothing, and the sorted list has the
    unfinished transactions before the finished ones and, among
    transactions of the same done-status, the later [lastChange] first. *)
Theorem allTransactions_sorted_permutation
    (transactions : list TxState) (onrampOrders : list OnrampOrder) :
  Permutation (merged transactions onrampOrders)
              (allTransactions transactions onrampOrders) /\
  StronglySorted unfinishedThenLatest (allTransactions transactions onrampOrders).
Proof.
  split.
  - apply sort_Permutation.
  - apply sorted_meaning, allTransactions_sorted.
Qed.

(** X11.  A transaction of [allTransactions] comes from a blockchain
    transaction or from an order whose type is wyre, moonpay or latamex;
    an order of any other type is left out. *)
Theorem allTransactions_members
    (transactions : list TxState) (onrampOrders : list OnrampOrder)
    (t : TxMgrTransaction) :
  In t (allTransactions transactions onrampOrders) <->
  (exists raw, In raw transactions /\ t = txState2Transaction raw) \/
  (exists o, In o onrampOrders /\
     ((orderType o = "wyre" /\ t = wyreOrder2Transaction o) \/
      (orderType o = "moonpay" /\ t = moonpayOrder2Transaction o) \/
      (orderType o = "latamex" /\ t = latamexOrder2Transaction o))).
Proof.
  unfold allTransactions. rewrite sort_In, !in_app_iff, !in_map_iff.
  split.
  - intros [H | [H | [H | H]]]; destruct H as (x & <- & Hx).
    + left. eauto.
    + apply filter_In in Hx. destruct Hx as [Hx Ht]. apply String.eqb_eq in Ht.
      right. exists x. auto.
    + apply filter_In in Hx. destruct Hx as [Hx Ht]. apply String.eqb_eq in Ht.
      right. exists x. auto.
    + apply filter_In in Hx. destruct Hx as [Hx Ht]. apply String.eqb_eq in Ht.
      right. exists x. auto 6.
  - intros [(raw & Hraw & ->) | (o & Ho & [[Ht ->] | [[Ht ->] | [Ht ->]]])].
    + left. eauto.
    + right; left. exists o. split; [reflexivity|].
      apply filter_In. split; [exact Ho | apply String.eqb_eq; exact Ht].
    + right; right; left. exists o. split; [reflexivity|].
      apply filter_In. split; [exact Ho | apply String.eqb_eq; exact Ht].
    + right; right; right. exists o. split; [reflexivity|].
      apply filter_In. split; [exact Ho | apply String.eqb_eq; exact Ht].
Qed.

(** *** The two lists *)

Lemma fold_push_lists l : forall b,
  pendingB (fold_left push l b) = pendingB b ++ filter pendingStatus l /\
  recentB (fold_left push l b) = recentB b ++ filter recentStatus l.
Proof.
  induction l as [|a l IH]; intros b.
  - simpl. rewrite !app_nil_r. auto.
  - cbn [fold_left filter]. destruct (IH (push b a)) as (H1 & H2).
    rewrite H1, H2. unfold push, pendingStatus, recentStatus.
    destruct (tierOf a); cbn; rewrite <- ?app_assoc; auto.
Qed.

Lemma lists_unfold now l :
  pendingTransactions (filterTransactions now l) = filter pendingStatus l /\
  recentTransactions (filterTransactions now l) = filter recentStatus l.
Proof.
  unfold filterTransactions. cbn [pendingTransactions recentTransactions].
  exact (fold_push_lists l emptyBuckets).
Qed.

(** X12.  [pendingTransactions] holds the transactions awaiting signature and
    the submitted ones, [recentTransactions] the successes and the errors,
    each in the order of the list; no transaction is in both, and one
    whose status the [switch] does not know is in neither. *)
Theorem pending_and_recent_lists (now : Z) (l : list TxMgrTransaction) :
  let m := filterTransactions now l in
  pendingTransactions m = filter pendingStatus l /\
  recentTransactions m = filter recentStatus l /\
  (forall t, In t (pendingTransactions m) -> ~ In t (recentTransactions m)) /\
  (forall t, tierOf t = NoTier ->
     ~ In t (pendingTransactions m) /\ ~ In t (recentTransactions m)).
Proof.
  cbv zeta. destruct (lists_unfold now l) as [-> ->].
  refine (conj eq_refl (conj eq_refl (conj _ _))).
  - intros t Hp Hr. apply filter_In in Hp, Hr.
    destruct Hp as [_ Hp], Hr as [_ Hr].
    unfold pendingStatus, recentStatus in *. destruct (tierOf t); discriminate.
  - intros t Ht. split; intros H; apply filter_In in H; destruct H as [_ H];
      unfold pendingStatus, recentStatus in H; rewrite Ht in H; discriminate.
Qed.

Lemma done_is_recent t :
  consistent t -> isTxDone t = true -> recentStatus t = true.
Proof.
  unfold consistent, isTxDone, recentStatus, tierOf, statusOf, isDone, orderDone.
  destruct (kind t) as [st raw|st raw|st raw|st raw].
  - intros <-. destruct (txStatus raw); intros H;
      solve [discriminate H | reflexivity].
  - intros _ H. apply existsb_eqb_In in H. simpl in H.
    repeat (destruct H as [<- | H]; [reflexivity|]). destruct H.
  - intros _ H. apply existsb_eqb_In in H. simpl in H.
    repeat (destruct H as [<- | H]; [reflexivity|]). destruct H.
  - intros _ H. apply existsb_eqb_In in H. simpl in H.
    repeat (destruct H as [<- | H]; [reflexivity|]). destruct H.
Qed.

(** X13.  Every finished transaction of the manager is listed as recent and
    none as pending. *)
Theorem done_transactions_are_recent
    (now : Z) (transactions : list TxState) (onrampOrders : list OnrampOrder)
    (t : TxMgrTransaction) :
  let m := createTransactionManager now transactions onrampOrders in
  In t (allTransactions transactions onrampOrders) -> isTxDone t = true ->
  In t (recentTransactions m) /\ ~ In t (pendingTransactions m).
Proof.
  cbv zeta. intros Hin Hdone. unfold createTransactionManager.
  destruct (lists_unfold now (allTransactions transactions onrampOrders))
    as [-> ->].
  pose proof (done_is_recent t (allTransactions_consistent _ _ _ Hin) Hdone) as Hr.
  split.
  - apply filter_In. auto.
  - intros H. apply filter_In in H. destruct H as [_ H].
    unfold pendingStatus, recentStatus in *. destruct (tierOf t); discriminate.
Qed.

Lemma done_transactions_are_recent_witness :
  let m := createTransactionManager sampleNow
             [propagatingAt 1 1000; failureAt 2 5000] [orderFailed] in
  In (wyreOrder2Transaction orderFailed) (recentTransactions m) /\
  ~ In (wyreOrder2Transaction orderFailed) (pendingTransactions m).
Proof.
  apply (done_transactions_are_recent sampleNow
           [propagatingAt 1 1000; failureAt 2 5000] [orderFailed]).
  - right; left. reflexivity.
  - reflexivity.
Defined.

Lemma sorted_impl_In (R Q : TxMgrTransaction -> TxMgrTransaction -> Prop) l :
  (forall a b, In a l -> In b l -> R a b -> Q a b) ->
  StronglySorted R l -> StronglySorted Q l.
Proof.
  intros HRQ Hs. induction Hs as [|a l Hs IH Ha]; constructor.
  - apply IH. intros x y Hx Hy. apply HRQ; right; assumption.
  - rewrite Forall_forall in *. intros b Hb.
    apply HRQ; [left; reflexivity | right; exact Hb | apply Ha; exact Hb].
Qed.

(** X14.  The pending list of the manager is in the order of [lastChange], the
    latest first. *)
Theorem pendingTransactions_latest_first
    (now : Z) (transactions : list TxState) (onrampOrders : list OnrampOrder) :
  StronglySorted laterFirst
    (pendingTransactions (createTransactionManager now transactions onrampOrders)).
Proof.
  unfold createTransactionManager.
  destruct (lists_unfold now (allTransactions transactions onrampOrders))
    as [-> _].
  eapply sorted_impl_In;
    [|apply filter_sorted, allTransactions_sorted].
  intros a b Ha Hb Hab. apply filter_In in Ha, Hb.
  destruct Ha as [Ha Ta], Hb as [Hb Tb].
  assert (Da : isTxDone a = false).
  { apply pending_not_done; [eapply allTransactions_consistent; exact Ha|].
    unfold pendingStatus in Ta. destruct (tierOf a); try discriminate; auto. }
  assert (Db : isTxDone b = false).
  { apply pending_not_done; [eapply allTransactions_consistent; exact Hb|].
    unfold pendingStatus in Tb. destruct (tierOf b); try discriminate; auto. }
  apply staysBefore_meaning in Hab. apply Hab. congruence.
Qed.

(** *** The notification *)

Lemma fold_left_snoc (l : list TxMgrTransaction) now u o :
  fold_left (timedStep now) (l ++ [u]) o
  = timedStep now (fold_left (timedStep now) l o) u.
Proof. rewrite fold_left_app. reflexivity. Qed.

Lemma past_not_within now t : pastWindow now t = true -> withinWindow now t = false.
Proof.
  unfold withinWindow, pastWindow. intros H.
  apply Z.ltb_lt in H. apply Z.ltb_ge. lia.
Qed.

Lemma selection_cases now l t :
  selected (filterTransactions now l) = Some t ->
  (exists rest, inTier SignTier l = t :: rest) \/
  (exists n, fold_left (timedStep now) (inTier ErrorTier l) None = Some n /\ tx n = t) \/
  (exists n, fold_left (timedStep now) (inTier SuccessTier l) None = Some n /\ tx n = t) \/
  (exists rest, inTier SubmittedTier l = t :: rest).
Proof.
  rewrite selected_unfold.
  destruct (inTier SignTier l) as [|t1 r1].
  - destruct (fold_left (timedStep now) (inTier ErrorTier l) None) as [n|].
    + intros H. injection H as <-. right; left. eauto.
    + destruct (fold_left (timedStep now) (inTier SuccessTier l) None) as [n|].
      * intros H. injection H as <-. right; right; left. eauto.
      * destruct (inTier SubmittedTier l) as [|t2 r2]; [discriminate|].
        intros H. injection H as <-. right; right; right. eauto.
  - intros H. injection H as <-. left. eauto.
Qed.

(** X15.  The notification, when there is one, is a transaction of the list,
    and it is in one of the two lists: a pending one for a transaction
    awaiting signature or submitted, a recent one for an error or a
    success. *)
Theorem notification_is_listed (now : Z) (l : list TxMgrTransaction)
    (t : TxMgrTransaction) :
  let m := filterTransactions now l in
  selected m = Some t ->
  In t l /\
  ((pendingStatus t = true /\ In t (pendingTransactions m)) \/
   (recentStatus t = true /\ In t (recentTransactions m))).
Proof.
  cbv zeta. intros Hsel.
  destruct (lists_unfold now l) as [-> ->].
  assert (Htier : exists T, T <> NoTier /\ In t (inTier T l)).
  { apply selection_cases in Hsel.
    destruct Hsel as [(rest & H) | [(n & H & <-) | [(n & H & <-) | (rest & H)]]].
    - exists SignTier. split; [discriminate|]. rewrite H. left. reflexivity.
    - exists ErrorTier. split; [discriminate|].
      apply loop_selection in H. destruct H as [H | [H _]]; [discriminate|exact H].
    - exists SuccessTier. split; [discriminate|].
      apply loop_selection in H. destruct H as [H | [H _]]; [discriminate|exact H].
    - exists SubmittedTier. split; [discriminate|]. rewrite H. left. reflexivity. }
  destruct Htier as (T & HT & Hin). apply inTier_In in Hin.
  destruct Hin as [Hin Ht]. split; [exact Hin|].
  unfold pendingStatus, recentStatus. rewrite Ht.
  destruct T; try congruence;
    [left | left | right | right]; (split; [reflexivity|]);
    apply filter_In; (split; [exact Hin|]);
    unfold pendingStatus, recentStatus; rewrite Ht; reflexivity.
Qed.

Lemma notification_is_listed_witness :
  In (txState2Transaction (failureAt 1 5000))
     (allTransactions [failureAt 1 5000; propagatingAt 2 1000] []).
Proof.
  apply (notification_is_listed sampleNow
           (allTransactions [failureAt 1 5000; propagatingAt 2 1000] [])
           (txState2Transaction (failureAt 1 5000))).
  reflexivity.
Defined.

Lemma notification_unfold now l :
  notificationTransaction (filterTransactions now l) =
  match inTier SignTier l with
  | t :: _ => Some {| tx := t; withDescription := true |}
  | [] =>
      match fold_left (timedStep now) (inTier ErrorTier l) None with
      | Some n => Some n
      | None =>
          match fold_left (timedStep now) (inTier SuccessTier l) None with
          | Some n => Some n
          | None =>
              match inTier SubmittedTier l with
              | t :: _ =>
                  Some {| tx := t; withDescription := withinWindow now t |}
              | [] => None
              end
          end
      end
  end.
Proof.
  unfold filterTransactions. cbv zeta.
  destruct (buckets l) as (H1 & H2 & H3 & H4). cbv zeta in H1, H2, H3, H4.
  cbn [notificationTransaction]. rewrite H1, H2, H3, H4, !loop_guard.
  destruct (inTier SignTier l) as [|t ?]; [|reflexivity].
  destruct (fold_left (timedStep now) (inTier ErrorTier l) None); [reflexivity|].
  destruct (fold_left (timedStep now) (inTier SuccessTier l) None); [reflexivity|].
  destruct (inTier SubmittedTier l); reflexivity.
Qed.

Lemma loop_description now l : forall o n,
  (forall m, o = Some m -> withDescription m = true) ->
  fold_left (timedStep now) l o = Some n -> withDescription n = true.
Proof.
  induction l as [|a l IH]; intros o n Ho H; [apply Ho; exact H|].
  cbn [fold_left] in H. apply (IH _ n) in H; [exact H|].
  intros m Hm. destruct o as [o'|]; simpl in Hm.
  - destruct (pastWindow now a); [discriminate|]. apply Ho. exact Hm.
  - destruct (withinWindow now a); [|discriminate].
    injection Hm as <-. reflexivity.
Qed.

Lemma head_in_tier T l t rest : inTier T l = t :: rest -> tierOf t = T.
Proof.
  intros H. assert (Hin : In t (inTier T l)) by (rewrite H; left; reflexivity).
  apply inTier_In in Hin. tauto.
Qed.

(** X16.  The notification comes without its description in one case only: a
    submitted transaction whose [lastChange] is not within 10 seconds of
    now. *)
Theorem notification_without_description (now : Z) (l : list TxMgrTransaction)
    (n : NotificationTransaction) :
  notificationTransaction (filterTransactions now l) = Some n ->
  (withDescription n = false <->
   tierOf (tx n) = SubmittedTier /\ withinWindow now (tx n) = false).
Proof.
  rewrite notification_unfold.
  destruct (inTier SignTier l) as [|t1 r1] eqn:Hsign.
  - destruct (fold_left (timedStep now) (inTier ErrorTier l) None) as [e|] eqn:He.
    + intros H. injection H as <-.
      pose proof (loop_description now _ None e
                    (fun m Hm => ltac:(discriminate)) He) as Hd.
      apply loop_selection in He. destruct He as [He | [He _]]; [discriminate|].
      apply inTier_In in He. destruct He as [_ He].
      rewrite Hd, He. split; [discriminate | intros [? _]; discriminate].
    + destruct (fold_left (timedStep now) (inTier SuccessTier l) None)
        as [e|] eqn:Hs.
      * intros H. injection H as <-.
        pose proof (loop_description now _ None e
                      (fun m Hm => ltac:(discriminate)) Hs) as Hd.
        apply loop_selection in Hs. destruct Hs as [Hs | [Hs _]]; [discriminate|].
        apply inTier_In in Hs. destruct Hs as [_ Hs].
        rewrite Hd, Hs. split; [discriminate | intros [? _]; discriminate].
      * destruct (inTier SubmittedTier l) as [|t2 r2] eqn:Hsub; [discriminate|].
        intros H. injection H as <-. cbn [tx withDescription].
        rewrite (head_in_tier _ _ _ _ Hsub). tauto.
  - intros H. injection H as <-. cbn [tx withDescription].
    rewrite (head_in_tier _ _ _ _ Hsign).
    split; [discriminate | intros [? _]; discriminate].
Qed.

Lemma notification_without_description_witness :
  tierOf (txState2Transaction (propagatingAt 1 11000)) = SubmittedTier /\
  withinWindow sampleNow (txState2Transaction (propagatingAt 1 11000)) = false.
Proof.
  apply (notification_without_description sampleNow
           (allTransactions [propagatingAt 1 11000] [])
           {| tx := txState2Transaction (propagatingAt 1 11000);
              withDescription := false |}); reflexivity.
Defined.

(** X17.  When the last error of the list is past its 10 seconds and no
    transaction awaits signature, no error is shown: the loop over the
    errors ends by taking back what it had selected, also an error that is
    within its 10 seconds. *)
Theorem last_error_expired_shows_no_error
    (now : Z) (l pre : list TxMgrTransaction) (u t : TxMgrTransaction) :
  inTier SignTier l = [] ->
  inTier ErrorTier l = pre ++ [u] ->
  pastWindow now u = true ->
  selected (filterTransactions now l) = Some t ->
  tierOf t <> ErrorTier.
Proof.
  intros Hsign Herr Hpast Hsel. apply selection_cases in Hsel.
  destruct Hsel as [(rest & H) | [(n & H & <-) | [(n & H & <-) | (rest & H)]]].
  - rewrite Hsign in H. discriminate.
  - rewrite Herr, fold_left_snoc in H. exfalso. revert H.
    destruct (fold_left (timedStep now) pre None); simpl.
    + rewrite Hpast. discriminate.
    + rewrite (past_not_within _ _ Hpast). discriminate.
  - apply loop_selection in H. destruct H as [H | [H _]]; [discriminate|].
    apply inTier_In in H. destruct H as [_ H]. rewrite H. discriminate.
  - rewrite (head_in_tier _ _ _ _ H). discriminate.
Qed.

Lemma last_error_expired_shows_no_error_witness :
  tierOf (txState2Transaction (propagatingAt 3 1000)) <> ErrorTier.
Proof.
  apply (last_error_expired_shows_no_error sampleNow
           (allTransactions
              [failureAt 1 5000; failureAt 2 60000; propagatingAt 3 1000] [])
           [txState2Transaction (failureAt 1 5000)]
           (txState2Transaction (failureAt 2 60000))); reflexivity.
Defined.

End TransactionsMore.
